(** * Manifold Drift: the metric-aware movement model of src/App.jsx

    A shallow embedding of the chart math, the per-frame stepper of [Player],
    the great-circle sampler of [GeodesicTracers] and the mode/manifold state
    of [App].  A JavaScript Number is read as a real number (type [R] of the
    Standard Library): the statements below are the exact, rounding-free
    reading of the program.  Strings stay strings, so that the tag
    comparisons [mode === 'euclid'] and [manifold === 'sphere'] are the ones
    the source makes. *)

From Stdlib Require Import Reals Lra Lia ZArith List String Bool.
Import ListNotations.

Open Scope string_scope.
Open Scope R_scope.

(** ** Vectors: THREE.Vector2, THREE.Vector3 and the arrays [x, y], [x, y, z] *)

Record Vec2 : Type := mkVec2 { v2x : R; v2y : R }.
Record Vec3 : Type := mkVec3 { v3x : R; v3y : R; v3z : R }.

Module V2.
Definition lengthSq (a : Vec2) : R := v2x a * v2x a + v2y a * v2y a.
Definition length (a : Vec2) : R := sqrt (lengthSq a).
Definition multiplyScalar (a : Vec2) (s : R) : Vec2 :=
  mkVec2 (v2x a * s) (v2y a * s).
Definition divideScalar (a : Vec2) (s : R) : Vec2 := multiplyScalar a (1 / s).
(** [length() || 1]: a zero length is falsy and replaced by 1. *)
Definition lengthOr1 (a : Vec2) : R :=
  if Req_dec_T (length a) 0 then 1 else length a.
Definition normalize (a : Vec2) : Vec2 := divideScalar a (lengthOr1 a).
Definition add (a b : Vec2) : Vec2 := mkVec2 (v2x a + v2x b) (v2y a + v2y b).
End V2.

Module V3.
Definition zero : Vec3 := mkVec3 0 0 0.
Definition dot (a b : Vec3) : R :=
  v3x a * v3x b + v3y a * v3y b + v3z a * v3z b.
Definition lengthSq (a : Vec3) : R := dot a a.
Definition length (a : Vec3) : R := sqrt (lengthSq a).
Definition multiplyScalar (a : Vec3) (s : R) : Vec3 :=
  mkVec3 (v3x a * s) (v3y a * s) (v3z a * s).
Definition divideScalar (a : Vec3) (s : R) : Vec3 := multiplyScalar a (1 / s).
Definition lengthOr1 (a : Vec3) : R :=
  if Req_dec_T (length a) 0 then 1 else length a.
Definition normalize (a : Vec3) : Vec3 := divideScalar a (lengthOr1 a).
Definition add (a b : Vec3) : Vec3 :=
  mkVec3 (v3x a + v3x b) (v3y a + v3y b) (v3z a + v3z b).
Definition sub (a b : Vec3) : Vec3 :=
  mkVec3 (v3x a - v3x b) (v3y a - v3y b) (v3z a - v3z b).
Definition negate (a : Vec3) : Vec3 := mkVec3 (- v3x a) (- v3y a) (- v3z a).
Definition addScaledVector (a v : Vec3) (s : R) : Vec3 :=
  mkVec3 (v3x a + v3x v * s) (v3y a + v3y v * s) (v3z a + v3z v * s).
Definition crossVectors (a b : Vec3) : Vec3 :=
  mkVec3 (v3y a * v3z b - v3z a * v3y b)
         (v3z a * v3x b - v3x a * v3z b)
         (v3x a * v3y b - v3y a * v3x b).
(** [new Matrix3().set(n11, n12, n13, n21, ...)] takes its entries row by
    row; [applyMatrix3] multiplies the matrix by the column vector. *)
Record Matrix3 : Type := mkMatrix3 {
  n11 : R; n12 : R; n13 : R;
  n21 : R; n22 : R; n23 : R;
  n31 : R; n32 : R; n33 : R }.
Definition applyMatrix3 (a : Vec3) (m : Matrix3) : Vec3 :=
  mkVec3 (n11 m * v3x a + n12 m * v3y a + n13 m * v3z a)
         (n21 m * v3x a + n22 m * v3y a + n23 m * v3z a)
         (n31 m * v3x a + n32 m * v3y a + n33 m * v3z a).
End V3.

(** ** Utility math helpers *)

Definition clamp (v a b : R) : R := Rmax a (Rmin b v).

(** [Math.atan2 y x] on finite arguments.  A real number has no signed
    zero: where the source is given y = -0 and x < 0 it returns -PI, and
    this reading gives PI, the same direction. *)
Definition atan2 (y x : R) : R :=
  if Rlt_dec 0 x then atan (y / x)
  else if Rlt_dec x 0 then
    (if Rle_dec 0 y then atan (y / x) + PI else atan (y / x) - PI)
  else if Rlt_dec 0 y then PI / 2
  else if Rlt_dec y 0 then - (PI / 2)
  else 0.

(** ** Chart math *)

Definition stereoToSphere (c : Vec2) : Vec3 :=
  let x := v2x c in
  let y := v2y c in
  let r2 := x * x + y * y in
  let denom := r2 + 1 in
  let s := 2 / denom in
  mkVec3 (s * x) (s * y) ((r2 - 1) / denom).

Definition sphereLambda (c : Vec2) : R :=
  let x := v2x c in
  let y := v2y c in
  let r2 := x * x + y * y in
  2 / (1 + r2).

Definition saddleEmbed_k (c : Vec2) (k : R) : Vec3 :=
  let x := v2x c in
  let y := v2y c in
  mkVec3 x y ((x * x - y * y) * k).

Definition saddleLambda_k (c : Vec2) (k : R) : R :=
  let x := v2x c in
  let y := v2y c in
  let s := sqrt (1 + 4 * k * k * (x * x + y * y)) in
  1 / s.

(** The default argument [k = 0.15]. *)
Definition saddleEmbed (c : Vec2) : Vec3 := saddleEmbed_k c (15 / 100).
Definition saddleLambda (c : Vec2) : R := saddleLambda_k c (15 / 100).

(** ** Player: the per-frame stepper

    The state a [Player] keeps between frames: the position of the scene
    object behind [ref] (absent until the group is attached), the velocity
    array [vel.current], the chart array [chart.current], the flag
    [onGround.current] and the key map [keys.current]. *)

Definition Keys : Type := string -> bool.

Record Pose : Type := mkPose { pos : Vec3; yaw : R }.

Record Player : Type := mkPlayer {
  obj : option Vec3;
  vel : Vec3;
  chart : Vec2;
  onGround : bool;
  keys : Keys }.

Definition speed : R := 28 / 10.
Definition jumpSpeed : R := 4.
Definition gravity : R := - (98 / 10).

(** The listeners [down] and [up] of the first effect. *)
Definition keydown (code : string) (st : Player) : Player :=
  mkPlayer (obj st) (vel st) (chart st) (onGround st)
           (fun c => if String.eqb c code then true else keys st c).
Definition keyup (code : string) (st : Player) : Player :=
  mkPlayer (obj st) (vel st) (chart st) (onGround st)
           (fun c => if String.eqb c code then false else keys st c).

(** A freshly rendered player: the [useRef] initial values, the group of
    the scene graph at the origin, no key seen yet. *)
Definition Player_initial : Player :=
  mkPlayer (Some V3.zero) (mkVec3 0 0 0) (mkVec2 0 0) true (fun _ => false).

(** The second effect, with the empty dependency list: it runs once, after
    the first render. *)
Definition Player_resetEffect (st : Player) : Player :=
  mkPlayer (match obj st with
            | Some _ => Some (mkVec3 0 (12 / 10) 4)
            | None => None
            end)
           (mkVec3 0 0 0) (mkVec2 0 0) (onGround st) (keys st).

(** [(keys.current[a] ? 1 : 0) - (keys.current[b] ? 1 : 0)] *)
Definition axis (k : Keys) (a b : string) : R :=
  (if k a then 1 else 0) - (if k b then 1 else 0).
Definition forwardOf (k : Keys) : R := axis k "KeyW" "KeyS".
Definition strafeOf (k : Keys) : R := axis k "KeyD" "KeyA".

(** Flat mode: the horizontal camera direction and the movement vector. *)
Definition flatDir (camDir : Vec3) : Vec3 :=
  V3.normalize (mkVec3 (v3x camDir) 0 (v3z camDir)).

Definition flatMove (k : Keys) (camDir : Vec3) : Vec3 :=
  let dir := flatDir camDir in
  let right := V3.negate (V3.crossVectors dir (mkVec3 0 1 0)) in
  let move := V3.zero in
  let move := V3.addScaledVector move dir (forwardOf k) in
  let move := V3.addScaledVector move right (strafeOf k) in
  if Rlt_dec 0 (V3.lengthSq move)
  then V3.multiplyScalar (V3.normalize move) speed
  else move.

(** Vertical velocity after gravity and the jump impulse. *)
Definition flatVy (st : Player) (dt : R) : R :=
  let vy := v3y (vel st) + gravity * dt in
  if keys st "Space" && onGround st then jumpSpeed else vy.

(** The branch [mode === 'euclid'] of the frame callback; [dt] is already
    clamped. *)
Definition stepEuclid (camDir : Vec3) (dt : R) (st : Player)
  : Player * option Pose :=
  match obj st with
  | None => (st, None)
  | Some p0 =>
    let dir := flatDir camDir in
    let move := flatMove (keys st) camDir in
    let vx := v3x move in
    let vz := v3z move in
    let vy := flatVy st dt in
    let og := if keys st "Space" && onGround st then false else onGround st in
    let px := v3x p0 + vx * dt in
    let py := v3y p0 + vy * dt in
    let pz := v3z p0 + vz * dt in
    let '(py, vy, og) :=
      if Rlt_dec py 1 then (1, 0, true) else (py, vy, og) in
    let yaw := atan2 (v3x dir) (v3z dir) in
    let p := mkVec3 px py pz in
    (mkPlayer (Some p) (mkVec3 vx vy vz) (chart st) og (keys st),
     Some (mkPose p yaw))
  end.

(** Curved mode: [let lam = 1; if (manifold === 'sphere') ...;
    if (manifold === 'saddle') ...]. *)
Definition selectLambda (manifold : string) (c : Vec2) : R :=
  let lam := 1 in
  let lam := if String.eqb manifold "sphere" then sphereLambda c else lam in
  let lam := if String.eqb manifold "saddle" then saddleLambda c else lam in
  lam.

(** [let p = [0, 0, 0]; if (manifold === 'sphere') ...;
    if (manifold === 'saddle') ...]. *)
Definition selectEmbed (manifold : string) (c : Vec2) : Vec3 :=
  let p := mkVec3 0 0 0 in
  let p := if String.eqb manifold "sphere" then stereoToSphere c else p in
  let p := if String.eqb manifold "saddle" then saddleEmbed c else p in
  p.

Definition localToWorld (yaw : R) : V3.Matrix3 :=
  V3.mkMatrix3 (cos yaw) (- sin yaw) 0
               (sin yaw) (cos yaw) 0
               0 0 1.

(** The chart displacement [du] and the yaw of one curved step. *)
Definition chartDisplacement (lam : R) (k : Keys) (camDir : Vec3) (dt : R)
  : Vec2 * R :=
  let want := mkVec2 (strafeOf k) (forwardOf k) in
  if Rlt_dec 0 (V2.lengthSq want) then
    let want := V2.normalize want in
    let yaw := atan2 (v3x camDir) (v3z camDir) in
    let v := V3.applyMatrix3 (mkVec3 (v2x want) (v2y want) 1)
                             (localToWorld yaw) in
    let du := mkVec2 (v3x v) (v3y v) in
    let du := V2.multiplyScalar (V2.normalize du)
                (speed / Rmax lam (1 / 10000) * dt) in
    (du, yaw)
  else
    (mkVec2 0 0, atan2 (v3x camDir) (v3z camDir)).

(** The other branch of the frame callback. *)
Definition stepRiemann (manifold : string) (camDir : Vec3) (dt : R)
  (st : Player) : Player * option Pose :=
  match obj st with
  | None => (st, None)
  | Some _ =>
    let lam := selectLambda manifold (chart st) in
    let '(du, yaw) := chartDisplacement lam (keys st) camDir dt in
    let c := mkVec2 (v2x (chart st) + v2x du) (v2y (chart st) + v2y du) in
    let p := selectEmbed manifold c in
    (mkPlayer (Some p) (vel st) c (onGround st) (keys st),
     Some (mkPose p yaw))
  end.

(** The frame callback: [dt = Math.min(dt, 1 / 30)], then one of the two
    branches.  The HUD record it also writes is display text only. *)
Definition clampDt (dt : R) : R := Rmin dt (1 / 30).

Definition useFrame (mode manifold : string) (camDir : Vec3) (dt : R)
  (st : Player) : Player * option Pose :=
  let dt := clampDt dt in
  if String.eqb mode "euclid" then stepEuclid camDir dt st
  else stepRiemann manifold camDir dt st.

(** A run of frames in one mode: camera direction and elapsed time of each. *)
Fixpoint runFrames (mode manifold : string) (fs : list (Vec3 * R))
  (st : Player) : Player :=
  match fs with
  | [] => st
  | (camDir, dt) :: fs' =>
    runFrames mode manifold fs' (fst (useFrame mode manifold camDir dt st))
  end.

(** ** GeodesicTracers: great circles through the pose

    [randomDirection()] and [Math.random()] are inputs of the model: the
    pair [rnd] is what the two calls return when the fallback runs. *)

Definition offsets : list R := [- (6 / 10); 0; 6 / 10].
Definition arc : R := PI * (13 / 10).
Definition N : nat := 220.

Definition makeGreatCircle (rnd : Vec3 * R) (p0 : Vec3) (yaw : R)
  : list Vec3 :=
  let dirFlat := mkVec3 (sin yaw) 0 (cos yaw) in
  let t := V3.sub dirFlat (V3.multiplyScalar p0 (V3.dot dirFlat p0)) in
  let t := if Rlt_dec (V3.lengthSq t) (1 / 1000000)
           then V3.normalize
                  (V3.sub (fst rnd) (V3.multiplyScalar p0 (snd rnd)))
           else t in
  let v := V3.normalize t in
  map (fun i : nat =>
         let s := (INR i / INR N - 5 / 10) * arc in
         let cs := cos s in
         let ss := sin s in
         let g := V3.add (V3.multiplyScalar p0 cs) (V3.multiplyScalar v ss) in
         V3.normalize g)
      (seq 0 (N + 1)).

(** [x || 0] on a number. *)
Definition orZero (x : R) : R := if Req_dec_T x 0 then 0 else x.

(** The sets of points the component draws, [None] when it renders nothing.
    [rnd i] is the random draw available to the arc of index [i]. *)
Definition GeodesicTracers (enabled : bool) (manifold : string)
  (pose : option Pose) (rnd : nat -> Vec3 * R) : option (list (list Vec3)) :=
  match pose with
  | None => None
  | Some ps =>
    if negb enabled || negb (String.eqb manifold "sphere") then None
    else
      let p := pos ps in
      Some (map (fun io : nat * R =>
                   makeGreatCircle (rnd (fst io)) (V3.normalize p)
                                   (orZero (yaw ps) + snd io))
                (combine (seq 0 (List.length offsets)) offsets))
  end.

(** ** App: mode and manifold state

    [mode], [manifold], [pose] and [transitionTS] are the state cells of
    [App] the movement model reads or writes; the remaining cells are
    display toggles.  [player] is the state of the one mounted [Player]. *)

Record App : Type := mkApp {
  mode : string;
  manifold : string;
  appPose : Pose;
  transitionTS : R;
  player : Player }.

(** What reaches the application: a click on a mode or manifold button (with
    the reading of [performance.now()] its effect would take), a key event,
    or a frame with the camera direction and the elapsed time. *)
Inductive Event : Type :=
| SetMode (m : string) (now : R)
| SetManifold (m : string) (now : R)
| KeyDown (code : string)
| KeyUp (code : string)
| Frame (camDir : Vec3) (dt : R).

(** The first render followed by the mount effects: the reset effect of
    [Player] and the timestamp effect of [App]. *)
Definition App_mount (now : R) : App :=
  mkApp "euclid" "sphere" (mkPose (mkVec3 0 0 0) 0) now
        (Player_resetEffect Player_initial).

(** The [mode] prop handed to [Player]. *)
Definition playerMode (a : App) : string :=
  if String.eqb (mode a) "euclid" then "euclid" else "riemann".

(** A state setter with the current value does not re-render; with a new
    value the effect on [[mode, manifold]] runs and stamps the transition.
    Nothing else depends on [mode] or [manifold]. *)
Definition App_step (a : App) (e : Event) : App :=
  match e with
  | SetMode m now =>
    if String.eqb m (mode a) then a
    else mkApp m (manifold a) (appPose a) now (player a)
  | SetManifold m now =>
    if String.eqb m (manifold a) then a
    else mkApp (mode a) m (appPose a) now (player a)
  | KeyDown code =>
    mkApp (mode a) (manifold a) (appPose a) (transitionTS a)
          (keydown code (player a))
  | KeyUp code =>
    mkApp (mode a) (manifold a) (appPose a) (transitionTS a)
          (keyup code (player a))
  | Frame camDir dt =>
    let r := useFrame (playerMode a) (manifold a) camDir dt (player a) in
    mkApp (mode a) (manifold a)
          (match snd r with Some q => q | None => appPose a end)
          (transitionTS a) (fst r)
  end.

Definition App_run (a : App) (es : list Event) : App := fold_left App_step es a.

(** A transition of the mode/manifold state. *)
Definition isTransition (a : App) (e : Event) : bool :=
  match e with
  | SetMode m _ => negb (String.eqb m (mode a))
  | SetManifold m _ => negb (String.eqb m (manifold a))
  | _ => false
  end.

(** Closeness of two points, coordinate by coordinate. *)
Definition near3 (eps : R) (a b : Vec3) : Prop :=
  Rabs (v3x a - v3x b) <= eps /\
  Rabs (v3y a - v3y b) <= eps /\
  Rabs (v3z a - v3z b) <= eps.

(** ** Concrete scenarios *)

(** The player right after mounting, and with the key W held. *)
Definition mounted : Player := Player_resetEffect Player_initial.
Definition pressW : Player := keydown "KeyW" mounted.

(** A player resting on the ground plane, no key held. *)
Definition landed : Player :=
  mkPlayer (Some (mkVec3 0 1 4)) (mkVec3 0 0 0) (mkVec2 0 0) true
           (fun _ => false).

(** A camera looking along +z: yaw 0. *)
Definition camForward : Vec3 := mkVec3 0 0 1.

(** The pose at the chart origin of the sphere, heading 0, and a fixed
    outcome of the random draws. *)
Definition southPose : Pose := mkPose (mkVec3 0 0 (-1)) 0.
Definition fixedDraw : nat -> Vec3 * R := fun _ => (mkVec3 1 0 0, 0).

(** Mount, enter the curved world, hold W for one slow frame. *)
Definition afterOneCurvedFrame : App :=
  App_run (App_mount 0)
          [SetMode "riemann" 1; KeyDown "KeyW"; Frame camForward (1 / 10)].

(** ** PortalFX: the expanding ring of a transition

    The two refs point into one mesh, so they are attached together:
    [None] is the state before that.  [setScalar] gives the three scale
    components one value. *)

Record Ring : Type := mkRing {
  ringVisible : bool;
  ringScale : R;
  matOpacity : R;
  matEmissive : R }.

(** The frame callback of [PortalFX]; [now] is the reading of
    [performance.now()].  A timestamp 0 is falsy. *)
Definition PortalFX_frame (enabled : bool) (ts now : R) (rg : option Ring)
  : option Ring :=
  match rg with
  | None => None
  | Some r =>
    if negb enabled || (if Req_dec_T ts 0 then true else false) then Some r
    else
      let t := (now - ts) / 1000 in
      let D := 9 / 10 in
      if Rlt_dec D t then
        (if ringVisible r
         then Some (mkRing false (ringScale r) (matOpacity r) (matEmissive r))
         else Some r)
      else
        let p := Rmin 1 (Rmax 0 (t / D)) in
        let s := 4 / 10 + 32 / 10 * p in
        Some (mkRing true s (1 - p) (15 / 10 * (1 - p) + 2 / 10))
  end.

(** ** SaddleSurface: the mesh of the saddle

    The vertices in the order the two nested loops push them, the flat
    coordinate array built from them, the triangle index array, and the
    heatmap parameter [t] of a vertex. *)

Module SaddleSurface.
Definition seg : nat := 80.
Definition size : R := 3.
Definition k : R := 15 / 100.
Definition Kmax : R := 4 * k * k.

(** [(i / seg - 0.5) * size * 2] *)
Definition coord (i : nat) : R := (INR i / INR seg - 5 / 10) * size * 2.

Definition vertices : list Vec3 :=
  flat_map (fun i : nat =>
              map (fun j : nat =>
                     saddleEmbed_k (mkVec2 (coord i) (coord j)) k)
                  (seq 0 (seg + 1)))
           (seq 0 (seg + 1)).

Definition positions : list R :=
  flat_map (fun p : Vec3 => [v3x p; v3y p; v3z p]) vertices.

Definition curvature (u v : R) : R :=
  let r2 := u * u + v * v in
  - 4 * k * k / (1 + 4 * k * k * r2) ^ 2.

Definition heat (u v : R) : R :=
  clamp (Rabs (curvature u v) / Kmax) 0 1.

Definition quad (i j : nat) : list nat :=
  let a := (i * (seg + 1) + j)%nat in
  let b := (a + 1)%nat in
  let c := (a + (seg + 1))%nat in
  let d := (c + 1)%nat in
  [a; b; d; a; d; c].

Definition indices : list nat :=
  flat_map (fun i : nat => flat_map (fun j : nat => quad i j) (seq 0 seg))
           (seq 0 seg).
End SaddleSurface.

(** ** App: what the tracer component is given *)

Definition App_GeodesicTracers (showGeodesics : bool) (a : App)
  (rnd : nat -> Vec3 * R) : option (list (list Vec3)) :=
  GeodesicTracers
    (showGeodesics && negb (String.eqb (mode a) "euclid")
     && String.eqb (manifold a) "sphere")
    (manifold a) (Some (appPose a)) rnd.

(** A run of [n] equal frames. *)
Definition sameFrames (camDir : Vec3) (dt : R) (n : nat) : list (Vec3 * R) :=
  repeat (camDir, dt) n.

(** Standing on the ground plane with no jump requested. *)
Definition atRest (st : Player) : Prop :=
  exists p, obj st = Some p /\ v3y p = 1
    /\ v3y (vel st) = 0 /\ onGround st = true /\ keys st "Space" = false.

(** ** Theorems: chart math *)

Lemma r2_plus_1_pos (x y : R) : 0 < x * x + y * y + 1.
Proof. nra. Qed.

(** C2: for every real pair (u, v), [stereoToSphere] returns
    (s*u, s*v, (r2-1)/(r2+1)) with r2 = u*u + v*v and s = 2/(r2+1), and the
    returned point has squared norm exactly 1, hence within 1e-9 of 1. *)
Theorem stereoToSphere_on_unit_sphere (u v : R) :
  let r2 := u * u + v * v in
  let s := 2 / (r2 + 1) in
  stereoToSphere (mkVec2 u v) = mkVec3 (s * u) (s * v) ((r2 - 1) / (r2 + 1))
  /\ V3.lengthSq (stereoToSphere (mkVec2 u v)) = 1
  /\ Rabs (V3.lengthSq (stereoToSphere (mkVec2 u v)) - 1) <= 1 / 1000000000.
Proof.
  intros r2 s. split; [reflexivity|].
  assert (H1 : V3.lengthSq (stereoToSphere (mkVec2 u v)) = 1).
  { unfold V3.lengthSq, V3.dot, stereoToSphere; simpl.
    pose proof (r2_plus_1_pos u v) as Hpos.
    field. lra. }
  split; [exact H1|].
  rewrite H1. replace (1 - 1) with 0 by ring. rewrite Rabs_R0. lra.
Qed.

(** C6: for every real pair (u, v), [sphereLambda] is 2/(1 + u*u + v*v), it
    lies in the half-open interval (0, 2], and it takes the value 2 at the
    chart origin and nowhere else. *)
Theorem sphereLambda_range (u v : R) :
  sphereLambda (mkVec2 u v) = 2 / (1 + u * u + v * v)
  /\ 0 < sphereLambda (mkVec2 u v) <= 2
  /\ sphereLambda (mkVec2 0 0) = 2
  /\ (sphereLambda (mkVec2 u v) = 2 <-> u = 0 /\ v = 0).
Proof.
  unfold sphereLambda; simpl.
  assert (Hpos : 0 < 1 + (u * u + v * v)) by nra.
  assert (Hge : 1 <= 1 + (u * u + v * v)) by nra.
  split; [f_equal; ring|].
  split; [split|].
  - apply Rdiv_lt_0_compat; lra.
  - apply (Rmult_le_reg_r (1 + (u * u + v * v))); [exact Hpos|].
    unfold Rdiv. rewrite Rmult_assoc, Rinv_l by lra. lra.
  - split; [field|]. split.
    + intros H.
      assert (Hr : u * u + v * v = 0).
      { apply (f_equal (fun t => t * (1 + (u * u + v * v)))) in H.
        unfold Rdiv in H. rewrite Rmult_assoc, Rinv_l in H by lra. lra. }
      split; nra.
    + intros [-> ->]. field.
Qed.

(** ** Theorems: vectors *)

Lemma V2_lengthSq_nonneg (a : Vec2) : 0 <= V2.lengthSq a.
Proof. unfold V2.lengthSq. nra. Qed.

Lemma V3_lengthSq_nonneg (a : Vec3) : 0 <= V3.lengthSq a.
Proof. unfold V3.lengthSq, V3.dot. nra. Qed.

Lemma V2_lengthOr1_pos (a : Vec2) :
  0 < V2.lengthSq a -> V2.lengthOr1 a = sqrt (V2.lengthSq a).
Proof.
  intros H. unfold V2.lengthOr1, V2.length.
  destruct (Req_dec_T (sqrt (V2.lengthSq a)) 0) as [E|E]; [|reflexivity].
  pose proof (sqrt_lt_R0 _ H). lra.
Qed.

Lemma V3_lengthOr1_pos (a : Vec3) :
  0 < V3.lengthSq a -> V3.lengthOr1 a = sqrt (V3.lengthSq a).
Proof.
  intros H. unfold V3.lengthOr1, V3.length.
  destruct (Req_dec_T (sqrt (V3.lengthSq a)) 0) as [E|E]; [|reflexivity].
  pose proof (sqrt_lt_R0 _ H). lra.
Qed.

Lemma V2_lengthSq_scale (a : Vec2) (s : R) :
  V2.lengthSq (V2.multiplyScalar a s) = s * s * V2.lengthSq a.
Proof. unfold V2.lengthSq, V2.multiplyScalar; simpl. ring. Qed.

Lemma V3_lengthSq_scale (a : Vec3) (s : R) :
  V3.lengthSq (V3.multiplyScalar a s) = s * s * V3.lengthSq a.
Proof. unfold V3.lengthSq, V3.dot, V3.multiplyScalar; simpl. ring. Qed.

Lemma inv_sqrt_sq (l : R) : 0 < l -> 1 / sqrt l * (1 / sqrt l) * l = 1.
Proof.
  intros H. pose proof (sqrt_lt_R0 _ H) as Hs.
  pose proof (sqrt_sqrt l (Rlt_le _ _ H)) as Hq.
  replace (1 / sqrt l * (1 / sqrt l) * l)
    with (l / (sqrt l * sqrt l)) by (field; lra).
  rewrite Hq. field. lra.
Qed.

Lemma V2_lengthSq_normalize (a : Vec2) :
  0 < V2.lengthSq a -> V2.lengthSq (V2.normalize a) = 1.
Proof.
  intros H. unfold V2.normalize, V2.divideScalar.
  rewrite V2_lengthSq_scale, (V2_lengthOr1_pos _ H).
  apply inv_sqrt_sq, H.
Qed.

Lemma V3_lengthSq_normalize (a : Vec3) :
  0 < V3.lengthSq a -> V3.lengthSq (V3.normalize a) = 1.
Proof.
  intros H. unfold V3.normalize, V3.divideScalar.
  rewrite V3_lengthSq_scale, (V3_lengthOr1_pos _ H).
  apply inv_sqrt_sq, H.
Qed.

Lemma V2_normalize_unit (a : Vec2) : V2.lengthSq a = 1 -> V2.normalize a = a.
Proof.
  intros H. unfold V2.normalize, V2.divideScalar.
  rewrite V2_lengthOr1_pos by lra. rewrite H, sqrt_1.
  destruct a as [x y]. unfold V2.multiplyScalar; simpl. f_equal; field.
Qed.

Lemma V3_normalize_unit (a : Vec3) : V3.lengthSq a = 1 -> V3.normalize a = a.
Proof.
  intros H. unfold V3.normalize, V3.divideScalar.
  rewrite V3_lengthOr1_pos by lra. rewrite H, sqrt_1.
  destruct a as [x y z]. unfold V3.multiplyScalar; simpl. f_equal; field.
Qed.

Lemma V2_length_unit_scale (a : Vec2) (s : R) :
  V2.lengthSq a = 1 -> 0 <= s -> V2.length (V2.multiplyScalar a s) = s.
Proof.
  intros H Hs. unfold V2.length. rewrite V2_lengthSq_scale, H, Rmult_1_r.
  apply sqrt_square, Hs.
Qed.

(** The rotation [localToWorld] keeps the planar length of (x, y, 1). *)
Lemma localToWorld_lengthSq (w : Vec2) (yaw : R) :
  let v := V3.applyMatrix3 (mkVec3 (v2x w) (v2y w) 1) (localToWorld yaw) in
  V2.lengthSq (mkVec2 (v3x v) (v3y v)) = V2.lengthSq w.
Proof.
  destruct w as [x y]. unfold V2.lengthSq, V3.applyMatrix3, localToWorld; simpl.
  pose proof (sin2_cos2 yaw) as H. unfold Rsqr in H.
  replace ((cos yaw * x + - sin yaw * y + 0 * 1) *
           (cos yaw * x + - sin yaw * y + 0 * 1) +
           (sin yaw * x + cos yaw * y + 0 * 1) *
           (sin yaw * x + cos yaw * y + 0 * 1))
    with ((sin yaw * sin yaw + cos yaw * cos yaw) * (x * x + y * y)) by ring.
  rewrite H. ring.
Qed.

(** ** Theorems: the stepper *)

Lemma axis_cases (k : Keys) (a b : string) :
  axis k a b = -1 \/ axis k a b = 0 \/ axis k a b = 1.
Proof. unfold axis. destruct (k a), (k b); lra. Qed.

Lemma Rmax_floor_pos (lam : R) : 1 / 10000 <= Rmax lam (1 / 10000).
Proof. apply Rmax_r. Qed.

Lemma clampDt_nonneg (dt : R) : 0 <= dt -> 0 <= clampDt dt.
Proof. intros H. unfold clampDt. apply Rmin_glb; lra. Qed.

Lemma clampDt_le (dt : R) : clampDt dt <= 1 / 30.
Proof. unfold clampDt. apply Rmin_r. Qed.

Lemma step_scale_nonneg (lam dt : R) :
  0 <= dt -> 0 <= speed / Rmax lam (1 / 10000) * dt.
Proof.
  intros H. pose proof (Rmax_floor_pos lam) as Hm.
  apply Rmult_le_pos; [|exact H].
  apply Rlt_le, Rdiv_lt_0_compat; unfold speed; lra.
Qed.

Lemma step_scale_bound (lam dt : R) :
  0 <= dt -> speed / Rmax lam (1 / 10000) * dt <= 28000 * dt.
Proof.
  intros H. pose proof (Rmax_floor_pos lam) as Hm.
  apply Rmult_le_compat_r; [exact H|].
  apply (Rmult_le_reg_r (Rmax lam (1 / 10000))); [lra|].
  unfold Rdiv at 1. rewrite Rmult_assoc, Rinv_l by lra.
  unfold speed. nra.
Qed.

(** The displacement of a step with some direction key effective: a unit
    chart direction times the metric-scaled step length. *)
Lemma chartDisplacement_length (lam : R) (k : Keys) (camDir : Vec3) (dt : R) :
  0 < V2.lengthSq (mkVec2 (strafeOf k) (forwardOf k)) ->
  0 <= dt ->
  V2.length (fst (chartDisplacement lam k camDir dt))
  = speed / Rmax lam (1 / 10000) * dt.
Proof.
  intros Hw Hdt. unfold chartDisplacement.
  destruct (Rlt_dec 0 (V2.lengthSq (mkVec2 (strafeOf k) (forwardOf k))))
    as [_|C]; [|contradiction].
  cbv zeta. unfold fst.
  apply V2_length_unit_scale; [|apply step_scale_nonneg, Hdt].
  rewrite V2_normalize_unit.
  - rewrite localToWorld_lengthSq. apply V2_lengthSq_normalize, Hw.
  - rewrite localToWorld_lengthSq. apply V2_lengthSq_normalize, Hw.
Qed.

Lemma want_nonzero (k : Keys) :
  forwardOf k <> 0 \/ strafeOf k <> 0 ->
  0 < V2.lengthSq (mkVec2 (strafeOf k) (forwardOf k)).
Proof. unfold V2.lengthSq; simpl. intros [H|H]; nra. Qed.

Lemma stepRiemann_chart (manifold : string) (camDir : Vec3) (dt : R)
  (st : Player) (p0 : Vec3) :
  obj st = Some p0 ->
  chart (fst (stepRiemann manifold camDir dt st))
  = V2.add (chart st)
      (fst (chartDisplacement (selectLambda manifold (chart st))
                              (keys st) camDir dt)).
Proof.
  intros Ho. unfold stepRiemann. rewrite Ho.
  destruct (chartDisplacement _ _ _ _) as [du y]. reflexivity.
Qed.

(** The metric factor a curved step uses, written out: the sphere's
    2 / (1 + r^2), the saddle's 1 / sqrt (1 + 4 k^2 r^2) with k = 0.15, and 1
    for any other tag, all at the chart position given. *)
Lemma selectLambda_explicit (manifold : string) (c : Vec2) :
  let u := v2x c in
  let v := v2y c in
  selectLambda manifold c
  = if String.eqb manifold "sphere" then 2 / (1 + (u * u + v * v))
    else if String.eqb manifold "saddle"
         then 1 / sqrt (1 + 4 * (15 / 100) * (15 / 100) * (u * u + v * v))
         else 1.
Proof.
  intros u v. unfold selectLambda.
  destruct (String.eqb manifold "sphere") eqn:E1.
  - apply String.eqb_eq in E1. subst manifold.
    change (String.eqb "sphere" "saddle") with false. reflexivity.
  - destruct (String.eqb manifold "saddle"); reflexivity.
Qed.

(** The displacement a curved step adds is the difference of the chart
    position after and before. *)
Lemma chart_difference (c d : Vec2) :
  mkVec2 (v2x (V2.add c d) - v2x c) (v2y (V2.add c d) - v2y c) = d.
Proof. destruct c, d. unfold V2.add; simpl. f_equal; ring. Qed.

(** C1: in a curved-mode step with a non-zero desired direction, the
    displacement added to the chart position (the chart position after the
    step minus the one before) has Euclidean length
    (2.8 / max(lambda, 1e-4)) * Dt, where lambda is the metric factor of the
    active manifold at the chart position (u, v) before the step, that is
    2 / (1 + u^2 + v^2) = sphereLambda on the sphere,
    1 / sqrt (1 + 4 * 0.15^2 * (u^2 + v^2)) = saddleLambda on the saddle, and
    1 for any other tag, and Dt = min(dt, 1/30) is the clamped elapsed time,
    between 0 and 1/30; the divisor is at least 1e-4, so the length is
    bounded by 28000 * Dt. *)
Theorem curved_step_displacement_magnitude
  (md manifold : string) (camDir : Vec3) (dt : R) (st : Player) (p0 : Vec3) :
  String.eqb md "euclid" = false ->
  obj st = Some p0 ->
  0 <= dt ->
  forwardOf (keys st) <> 0 \/ strafeOf (keys st) <> 0 ->
  let u := v2x (chart st) in
  let v := v2y (chart st) in
  let lam :=
    if String.eqb manifold "sphere" then 2 / (1 + (u * u + v * v))
    else if String.eqb manifold "saddle"
         then 1 / sqrt (1 + 4 * (15 / 100) * (15 / 100) * (u * u + v * v))
         else 1 in
  let Dt := Rmin dt (1 / 30) in
  let c' := chart (fst (useFrame md manifold camDir dt st)) in
  let du := mkVec2 (v2x c' - u) (v2y c' - v) in
  c' = V2.add (chart st) du
  /\ V2.length du = 28 / 10 / Rmax lam (1 / 10000) * Dt
  /\ (manifold = "sphere" -> lam = sphereLambda (chart st))
  /\ (manifold = "saddle" -> lam = saddleLambda (chart st))
  /\ (manifold <> "sphere" -> manifold <> "saddle" -> lam = 1)
  /\ 0 <= Dt <= 1 / 30
  /\ (dt <= 1 / 30 -> Dt = dt)
  /\ 1 / 10000 <= Rmax lam (1 / 10000)
  /\ V2.length du <= 28000 * Dt.
Proof.
  intros Hmd Ho Hdt Hin u v lam Dt c' du.
  pose proof (clampDt_nonneg dt Hdt) as HDt.
  pose proof (clampDt_le dt) as HDt'.
  change (clampDt dt) with Dt in HDt, HDt'.
  assert (Hl : selectLambda manifold (chart st) = lam)
    by (apply selectLambda_explicit).
  set (d0 := fst (chartDisplacement (selectLambda manifold (chart st))
                    (keys st) camDir (clampDt dt))).
  assert (Hc : c' = V2.add (chart st) d0).
  { unfold c', useFrame. rewrite Hmd. apply (stepRiemann_chart _ _ _ _ p0 Ho). }
  assert (Hd : du = d0).
  { unfold du, u, v. rewrite Hc. apply chart_difference. }
  assert (Hlen : V2.length du = 28 / 10 / Rmax lam (1 / 10000) * Dt).
  { rewrite Hd. unfold d0. rewrite chartDisplacement_length;
      [| apply want_nonzero, Hin | exact HDt].
    rewrite Hl. reflexivity. }
  split; [rewrite Hd; exact Hc|]. split; [exact Hlen|].
  split.
  { intros ->. reflexivity. }
  split.
  { intros ->. reflexivity. }
  split.
  { intros N1 N2. unfold lam.
    apply String.eqb_neq in N1. apply String.eqb_neq in N2.
    rewrite N1, N2. reflexivity. }
  split; [split; assumption|].
  split; [intros Hle; unfold Dt; apply Rmin_left, Hle|].
  split; [apply Rmax_floor_pos|].
  rewrite Hlen.
  pose proof (step_scale_bound lam Dt HDt) as Hb. unfold speed in Hb.
  exact Hb.
Qed.

(** *** Evaluating the scenario pieces *)

Lemma pressW_forward : forwardOf (keys pressW) = 1.
Proof. unfold forwardOf, axis; simpl. lra. Qed.

Lemma pressW_strafe : strafeOf (keys pressW) = 0.
Proof. unfold strafeOf, axis; simpl. lra. Qed.

Lemma mounted_forward : forwardOf (keys mounted) = 0.
Proof. unfold forwardOf, axis; simpl. lra. Qed.

Lemma mounted_strafe : strafeOf (keys mounted) = 0.
Proof. unfold strafeOf, axis; simpl. lra. Qed.

Lemma atan2_forward : atan2 0 1 = 0.
Proof.
  unfold atan2. destruct (Rlt_dec 0 1) as [_|C]; [|lra].
  replace (0 / 1) with 0 by field. apply atan_0.
Qed.

Lemma clampDt_slow_frame : clampDt (1 / 10) = 1 / 30.
Proof. unfold clampDt. apply Rmin_right. lra. Qed.

Lemma sphereLambda_origin : selectLambda "sphere" (mkVec2 0 0) = 2.
Proof. unfold selectLambda, sphereLambda; simpl. field. Qed.

(** Forward input under yaw 0 moves along the chart's second axis. *)
Lemma chartDisplacement_forward (lam dt : R) (k : Keys) :
  forwardOf k = 1 -> strafeOf k = 0 ->
  chartDisplacement lam k camForward dt
  = (mkVec2 0 (speed / Rmax lam (1 / 10000) * dt), 0).
Proof.
  intros Hf Hs. unfold chartDisplacement. rewrite Hf, Hs.
  assert (Hu : V2.lengthSq (mkVec2 0 1) = 1)
    by (unfold V2.lengthSq; simpl; ring).
  destruct (Rlt_dec 0 (V2.lengthSq (mkVec2 0 1))) as [_|C]; [|lra].
  cbv zeta. rewrite (V2_normalize_unit _ Hu).
  unfold camForward; simpl. rewrite atan2_forward.
  unfold V3.applyMatrix3, localToWorld; simpl. rewrite cos_0, sin_0.
  replace (1 * 0 + - 0 * 1 + 0 * 1) with 0 by ring.
  replace (0 * 0 + 1 * 1 + 0 * 1) with 1 by ring.
  rewrite (V2_normalize_unit _ Hu).
  unfold V2.multiplyScalar; simpl. f_equal. f_equal; ring.
Qed.

Lemma scenario_step :
  useFrame "riemann" "sphere" camForward (1 / 10) pressW
  = (mkPlayer (Some (stereoToSphere (mkVec2 0 (7 / 150))))
              (mkVec3 0 0 0) (mkVec2 0 (7 / 150)) true (keys pressW),
     Some (mkPose (stereoToSphere (mkVec2 0 (7 / 150))) 0)).
Proof.
  unfold useFrame. rewrite clampDt_slow_frame.
  change (String.eqb "riemann" "euclid") with false. cbv iota.
  unfold stepRiemann.
  change (obj pressW) with (Some (mkVec3 0 (12 / 10) 4)). cbv iota.
  change (chart pressW) with (mkVec2 0 0).
  rewrite sphereLambda_origin.
  rewrite (chartDisplacement_forward _ _ _ pressW_forward pressW_strafe).
  rewrite Rmax_left by lra.
  cbv zeta iota beta. simpl v2x. simpl v2y.
  replace (0 + 0) with 0 by ring.
  replace (0 + speed / 2 * (1 / 30)) with (7 / 150) by (unfold speed; field).
  reflexivity.
Qed.

Lemma stereo_7_150 :
  stereoToSphere (mkVec2 0 (7 / 150))
  = mkVec3 0 (2100 / 22549) (- (22451 / 22549)).
Proof. unfold stereoToSphere; simpl. f_equal; field. Qed.

Lemma stereo_14_100 :
  stereoToSphere (mkVec2 0 (14 / 100))
  = mkVec3 0 (700 / 2549) (- (2451 / 2549)).
Proof. unfold stereoToSphere; simpl. f_equal; field. Qed.

Lemma curved_step_displacement_magnitude_witness :
  String.eqb "riemann" "euclid" = false
  /\ obj pressW = Some (mkVec3 0 (12 / 10) 4)
  /\ 0 <= 1 / 10
  /\ (forwardOf (keys pressW) <> 0 \/ strafeOf (keys pressW) <> 0)
  /\ V2.length
       (mkVec2
          (v2x (chart (fst (useFrame "riemann" "sphere" camForward (1 / 10)
                              pressW))) - 0)
          (v2y (chart (fst (useFrame "riemann" "sphere" camForward (1 / 10)
                              pressW))) - 0))
     = 7 / 150.
Proof.
  assert (Hdt : 0 <= 1 / 10) by lra.
  assert (Hin : forwardOf (keys pressW) <> 0 \/ strafeOf (keys pressW) <> 0)
    by (left; rewrite pressW_forward; lra).
  destruct (curved_step_displacement_magnitude "riemann" "sphere" camForward
              (1 / 10) pressW (mkVec3 0 (12 / 10) 4)
              eq_refl eq_refl Hdt Hin) as (_ & H2 & _).
  cbv zeta in H2.
  change (String.eqb "sphere" "sphere") with true in H2. cbv iota in H2.
  change (v2x (chart pressW)) with 0 in H2.
  change (v2y (chart pressW)) with 0 in H2.
  split; [reflexivity|]. split; [reflexivity|]. split; [exact Hdt|].
  split; [exact Hin|].
  rewrite H2.
  replace (2 / (1 + (0 * 0 + 0 * 0))) with 2 by field.
  rewrite Rmax_left by lra. rewrite Rmin_right by lra. field.
Defined.

(** C4, as the spec states it, fails twice on the code: the step clamps the
    elapsed time 0.1 to 1/30, so the chart position reached is (0, 7/150)
    and not (0, 0.14); and the point the embedding gives at (0, 0.14) is
    (0, 700/2549, -2451/2549), more than 0.1 away from (0, 0.139, -0.990). *)
Lemma scenario_sphere_step_counterexample :
  chart (fst (useFrame "riemann" "sphere" camForward (1 / 10) pressW))
    <> mkVec2 0 (14 / 100)
  /\ ~ near3 (1 / 10) (stereoToSphere (mkVec2 0 (14 / 100)))
                      (mkVec3 0 (139 / 1000) (- (990 / 1000))).
Proof.
  split.
  - rewrite scenario_step. simpl. intros H.
    apply (f_equal v2y) in H. simpl in H. lra.
  - rewrite stereo_14_100. unfold near3; simpl. intros (_ & Hy & _).
    pose proof (Rle_abs (700 / 2549 - 139 / 1000)) as Ha. lra.
Qed.

(** C4 (amended): in curved mode on the sphere, from chart position (0,0)
    with forward input 1, strafe 0, camera yaw 0, dt = 0.1 and speed 2.8,
    the elapsed time is clamped to 1/30, the metric factor is 2, the chart
    displacement is (0, 7/150), the new chart position is (0, 7/150), and
    the output point is the embedding of (0, 7/150), that is
    (0, 2100/22549, -22451/22549), within 0.001 of (0, 0.093, -0.996). *)
Theorem scenario_sphere_step :
  let r := useFrame "riemann" "sphere" camForward (1 / 10) pressW in
  chart pressW = mkVec2 0 0
  /\ forwardOf (keys pressW) = 1 /\ strafeOf (keys pressW) = 0
  /\ atan2 (v3x camForward) (v3z camForward) = 0
  /\ clampDt (1 / 10) = 1 / 30
  /\ selectLambda "sphere" (chart pressW) = 2
  /\ chartDisplacement 2 (keys pressW) camForward (clampDt (1 / 10))
     = (mkVec2 0 (7 / 150), 0)
  /\ chart (fst r) = mkVec2 0 (7 / 150)
  /\ snd r = Some (mkPose (stereoToSphere (mkVec2 0 (7 / 150))) 0)
  /\ obj (fst r) = Some (stereoToSphere (mkVec2 0 (7 / 150)))
  /\ stereoToSphere (mkVec2 0 (7 / 150))
     = mkVec3 0 (2100 / 22549) (- (22451 / 22549))
  /\ near3 (1 / 1000) (stereoToSphere (mkVec2 0 (7 / 150)))
                      (mkVec3 0 (93 / 1000) (- (996 / 1000))).
Proof.
  intros r. unfold r. rewrite scenario_step.
  split; [reflexivity|].
  split; [exact pressW_forward|]. split; [exact pressW_strafe|].
  split; [exact atan2_forward|]. split; [exact clampDt_slow_frame|].
  split; [exact sphereLambda_origin|].
  split.
  { rewrite (chartDisplacement_forward _ _ _ pressW_forward pressW_strafe).
    rewrite clampDt_slow_frame, Rmax_left by lra.
    f_equal. f_equal. unfold speed. field. }
  split; [reflexivity|]. split; [reflexivity|]. split; [reflexivity|].
  split; [exact stereo_7_150|].
  rewrite stereo_7_150. unfold near3; simpl.
  repeat split; apply Rabs_le; lra.
Qed.

(** *** Zero input *)

Lemma chartDisplacement_zero (lam : R) (k : Keys) (camDir : Vec3) (dt : R) :
  forwardOf k = 0 -> strafeOf k = 0 ->
  chartDisplacement lam k camDir dt
  = (mkVec2 0 0, atan2 (v3x camDir) (v3z camDir)).
Proof.
  intros Hf Hs. unfold chartDisplacement. rewrite Hf, Hs.
  destruct (Rlt_dec 0 (V2.lengthSq (mkVec2 0 0))) as [C|_]; [|reflexivity].
  unfold V2.lengthSq in C; simpl in C. lra.
Qed.

Lemma flatMove_zero (k : Keys) (camDir : Vec3) :
  forwardOf k = 0 -> strafeOf k = 0 ->
  v3x (flatMove k camDir) = 0 /\ v3z (flatMove k camDir) = 0.
Proof.
  intros Hf Hs. unfold flatMove. rewrite Hf, Hs. cbv zeta.
  set (m := V3.addScaledVector _ _ 0).
  assert (Hx : v3x m = 0) by (unfold m, V3.addScaledVector, V3.zero; simpl; ring).
  assert (Hy : v3y m = 0) by (unfold m, V3.addScaledVector, V3.zero; simpl; ring).
  assert (Hz : v3z m = 0) by (unfold m, V3.addScaledVector, V3.zero; simpl; ring).
  destruct (Rlt_dec 0 (V3.lengthSq m)) as [C|_]; [|split; assumption].
  unfold V3.lengthSq, V3.dot in C. rewrite Hx, Hy, Hz in C. lra.
Qed.

(** The shape of a flat step on a mounted player. *)
Lemma stepEuclid_obj (camDir : Vec3) (dt : R) (st : Player) (p0 : Vec3) :
  obj st = Some p0 ->
  let vy := flatVy st dt in
  let py := v3y p0 + vy * dt in
  let px := v3x p0 + v3x (flatMove (keys st) camDir) * dt in
  let pz := v3z p0 + v3z (flatMove (keys st) camDir) * dt in
  let yw := atan2 (v3x (flatDir camDir)) (v3z (flatDir camDir)) in
  (py < 1 ->
   stepEuclid camDir dt st
   = (mkPlayer (Some (mkVec3 px 1 pz))
               (mkVec3 (v3x (flatMove (keys st) camDir)) 0
                       (v3z (flatMove (keys st) camDir)))
               (chart st) true (keys st),
      Some (mkPose (mkVec3 px 1 pz) yw)))
  /\ (~ py < 1 ->
      stepEuclid camDir dt st
      = (mkPlayer (Some (mkVec3 px py pz))
                  (mkVec3 (v3x (flatMove (keys st) camDir)) vy
                          (v3z (flatMove (keys st) camDir)))
                  (chart st)
                  (if keys st "Space" && onGround st then false
                   else onGround st)
                  (keys st),
         Some (mkPose (mkVec3 px py pz) yw))).
Proof.
  intros Ho vy py px pz yw. unfold stepEuclid. rewrite Ho. cbv zeta.
  fold vy. fold py. fold px. fold pz. fold yw.
  split; intros H; destruct (Rlt_dec py 1) as [L|L];
    try contradiction; reflexivity.
Qed.

Lemma clampDt_id (dt : R) : dt <= 1 / 30 -> clampDt dt = dt.
Proof. intros H. unfold clampDt. apply Rmin_left, H. Qed.

(** C5, as the spec states it, fails in flat mode: with no key held, the
    freshly mounted player at (0, 1.2, 4) falls during the step, so its
    Cartesian position changes. *)
Lemma zero_input_flat_counterexample :
  forwardOf (keys mounted) = 0 /\ strafeOf (keys mounted) = 0
  /\ obj (fst (useFrame "euclid" "sphere" camForward (1 / 30) mounted))
     <> obj mounted.
Proof.
  split; [exact mounted_forward|]. split; [exact mounted_strafe|].
  unfold useFrame. rewrite clampDt_id by lra.
  change (String.eqb "euclid" "euclid") with true. cbv iota.
  assert (Ho : obj mounted = Some (mkVec3 0 (12 / 10) 4)) by reflexivity.
  destruct (stepEuclid_obj camForward (1 / 30) mounted _ Ho) as [_ Hge].
  assert (Hvy : flatVy mounted (1 / 30) = - (98 / 300))
    by (unfold flatVy, gravity; simpl; field).
  rewrite Hvy in Hge. simpl v3y in Hge.
  rewrite Hge by lra. rewrite Ho. simpl.
  intros H. injection H as _ Hy. lra.
Qed.

(** C5 (amended): with a zero desired direction, a curved-mode step leaves
    the chart position unchanged, and a flat-mode step leaves the horizontal
    coordinates x and z unchanged; in both the yaw is recomputed from the
    camera forward vector. *)
Theorem zero_input_step
  (md manifold : string) (camDir : Vec3) (dt : R) (st : Player) (p0 : Vec3) :
  obj st = Some p0 ->
  forwardOf (keys st) = 0 ->
  strafeOf (keys st) = 0 ->
  let r := useFrame md manifold camDir dt st in
  (String.eqb md "euclid" = false ->
   chart (fst r) = chart st
   /\ exists p, snd r = Some (mkPose p (atan2 (v3x camDir) (v3z camDir))))
  /\ (String.eqb md "euclid" = true ->
      exists p1, obj (fst r) = Some p1
        /\ v3x p1 = v3x p0 /\ v3z p1 = v3z p0
        /\ snd r = Some (mkPose p1 (atan2 (v3x (flatDir camDir))
                                          (v3z (flatDir camDir))))).
Proof.
  intros Ho Hf Hs r. unfold r, useFrame. split; intros Hmd; rewrite Hmd.
  - unfold stepRiemann. rewrite Ho.
    rewrite (chartDisplacement_zero _ _ _ _ Hf Hs). simpl.
    split.
    + destruct (chart st) as [u v]; simpl. f_equal; ring.
    + eexists. reflexivity.
  - destruct (flatMove_zero (keys st) camDir Hf Hs) as [Hx Hz].
    destruct (stepEuclid_obj camDir (clampDt dt) st p0 Ho) as [Hlt Hge].
    destruct (Rlt_dec (v3y p0 + flatVy st (clampDt dt) * clampDt dt) 1)
      as [L|L].
    + rewrite (Hlt L). eexists. split; [reflexivity|].
      simpl. rewrite Hx, Hz. repeat split; ring.
    + rewrite (Hge L). eexists. split; [reflexivity|].
      simpl. rewrite Hx, Hz. repeat split; ring.
Qed.

Lemma zero_input_step_witness :
  obj mounted = Some (mkVec3 0 (12 / 10) 4)
  /\ forwardOf (keys mounted) = 0
  /\ strafeOf (keys mounted) = 0
  /\ chart (fst (useFrame "riemann" "sphere" camForward (1 / 30) mounted))
     = chart mounted
  /\ exists p1,
       obj (fst (useFrame "euclid" "sphere" camForward (1 / 30) mounted))
       = Some p1
       /\ v3x p1 = 0 /\ v3z p1 = 4.
Proof.
  split; [reflexivity|]. split; [exact mounted_forward|].
  split; [exact mounted_strafe|]. split.
  - exact (proj1 (proj1 (zero_input_step "riemann" "sphere" camForward
                           (1 / 30) mounted (mkVec3 0 (12 / 10) 4) eq_refl
                           mounted_forward mounted_strafe) eq_refl)).
  - destruct (proj2 (zero_input_step "euclid" "sphere" camForward
                       (1 / 30) mounted (mkVec3 0 (12 / 10) 4) eq_refl
                       mounted_forward mounted_strafe) eq_refl)
      as (p1 & H1 & Hx & Hz & _).
    exists p1. split; [exact H1|]. split; assumption.
Defined.

(** *** Frame properties across modes *)

Lemma stepRiemann_frame (manifold : string) (camDir : Vec3) (dt : R)
  (st : Player) :
  vel (fst (stepRiemann manifold camDir dt st)) = vel st
  /\ onGround (fst (stepRiemann manifold camDir dt st)) = onGround st.
Proof.
  unfold stepRiemann. destruct (obj st); [|split; reflexivity].
  destruct (chartDisplacement _ _ _ _). split; reflexivity.
Qed.

Lemma stepEuclid_frame (camDir : Vec3) (dt : R) (st : Player) :
  chart (fst (stepEuclid camDir dt st)) = chart st.
Proof.
  unfold stepEuclid. destruct (obj st); [|reflexivity]. cbv zeta.
  destruct (Rlt_dec _ 1); reflexivity.
Qed.

Lemma useFrame_frame (md manifold : string) (camDir : Vec3) (dt : R)
  (st : Player) :
  if String.eqb md "euclid"
  then chart (fst (useFrame md manifold camDir dt st)) = chart st
  else vel (fst (useFrame md manifold camDir dt st)) = vel st
       /\ onGround (fst (useFrame md manifold camDir dt st)) = onGround st.
Proof.
  unfold useFrame. destruct (String.eqb md "euclid").
  - apply stepEuclid_frame.
  - apply stepRiemann_frame.
Qed.

(** C8: a curved-mode step never modifies the flat-mode velocity or the
    grounded flag, and a flat-mode step never modifies the chart position;
    over any run of frames in one mode, the other mode's private state stays
    as it was. *)
Theorem cross_mode_frame (md manifold : string) (st : Player) :
  (forall camDir dt,
     if String.eqb md "euclid"
     then chart (fst (useFrame md manifold camDir dt st)) = chart st
     else vel (fst (useFrame md manifold camDir dt st)) = vel st
          /\ onGround (fst (useFrame md manifold camDir dt st)) = onGround st)
  /\ (forall fs,
        if String.eqb md "euclid"
        then chart (runFrames md manifold fs st) = chart st
        else vel (runFrames md manifold fs st) = vel st
             /\ onGround (runFrames md manifold fs st) = onGround st).
Proof.
  split; [intros camDir dt; apply useFrame_frame|].
  intros fs. revert st.
  induction fs as [|[camDir dt] fs IH]; intros st; simpl.
  - destruct (String.eqb md "euclid"); [|split]; reflexivity.
  - specialize (IH (fst (useFrame md manifold camDir dt st))).
    pose proof (useFrame_frame md manifold camDir dt st) as H1.
    destruct (String.eqb md "euclid").
    + rewrite IH. exact H1.
    + destruct IH as [IHv IHg]. destruct H1 as [Hv Hg].
      split; congruence.
Qed.

(** C9: after every flat-mode step the Cartesian y-coordinate is at least 1;
    whenever the integration would place y below 1, the step ends with y
    exactly 1, vertical velocity exactly 0 and the grounded flag true. *)
Theorem flat_ground_invariant
  (md manifold : string) (camDir : Vec3) (dt : R) (st : Player) (p0 : Vec3) :
  String.eqb md "euclid" = true ->
  obj st = Some p0 ->
  let st' := fst (useFrame md manifold camDir dt st) in
  exists p1, obj st' = Some p1
    /\ 1 <= v3y p1
    /\ (v3y p0 + flatVy st (clampDt dt) * clampDt dt < 1 ->
        v3y p1 = 1 /\ v3y (vel st') = 0 /\ onGround st' = true).
Proof.
  intros Hmd Ho st'. unfold st', useFrame. rewrite Hmd.
  destruct (stepEuclid_obj camDir (clampDt dt) st p0 Ho) as [Hlt Hge].
  destruct (Rlt_dec (v3y p0 + flatVy st (clampDt dt) * clampDt dt) 1)
    as [L|L].
  - rewrite (Hlt L). eexists. split; [reflexivity|]. simpl.
    split; [lra|]. intros _. repeat split.
  - rewrite (Hge L). eexists. split; [reflexivity|]. simpl.
    split; [lra|]. intros C. contradiction.
Qed.

Lemma flat_ground_invariant_witness :
  String.eqb "euclid" "euclid" = true
  /\ obj landed = Some (mkVec3 0 1 4)
  /\ v3y (mkVec3 0 1 4) + flatVy landed (clampDt (1 / 30)) * clampDt (1 / 30)
     < 1
  /\ exists p1,
       obj (fst (useFrame "euclid" "sphere" camForward (1 / 30) landed))
       = Some p1
       /\ v3y p1 = 1
       /\ v3y (vel (fst (useFrame "euclid" "sphere" camForward (1 / 30)
                           landed))) = 0
       /\ onGround (fst (useFrame "euclid" "sphere" camForward (1 / 30)
                           landed)) = true.
Proof.
  assert (Hy : v3y (mkVec3 0 1 4)
               + flatVy landed (clampDt (1 / 30)) * clampDt (1 / 30) < 1).
  { rewrite clampDt_id by lra. unfold flatVy, gravity; simpl. lra. }
  split; [reflexivity|]. split; [reflexivity|]. split; [exact Hy|].
  destruct (flat_ground_invariant "euclid" "sphere" camForward (1 / 30)
              landed (mkVec3 0 1 4) eq_refl eq_refl)
    as (p1 & H1 & _ & H3).
  exists p1. split; [exact H1|]. exact (H3 Hy).
Defined.

(** *** A manifold tag outside the two known ones *)

Lemma selectLambda_default (manifold : string) (c : Vec2) :
  manifold <> "sphere" -> manifold <> "saddle" -> selectLambda manifold c = 1.
Proof.
  intros H1 H2. unfold selectLambda.
  apply String.eqb_neq in H1. apply String.eqb_neq in H2.
  rewrite H1, H2. reflexivity.
Qed.

Lemma selectEmbed_default (manifold : string) (c : Vec2) :
  manifold <> "sphere" -> manifold <> "saddle" ->
  selectEmbed manifold c = mkVec3 0 0 0.
Proof.
  intros H1 H2. unfold selectEmbed.
  apply String.eqb_neq in H1. apply String.eqb_neq in H2.
  rewrite H1, H2. reflexivity.
Qed.

(** C10: in curved mode with a manifold tag that is neither 'sphere' nor
    'saddle', a step uses the metric factor 1 and outputs the point
    (0, 0, 0) whatever the chart position is, while the chart position still
    advances by the displacement computed with that factor. *)
Theorem unknown_manifold_default
  (md manifold : string) (camDir : Vec3) (dt : R) (st : Player) (p0 : Vec3) :
  String.eqb md "euclid" = false ->
  manifold <> "sphere" ->
  manifold <> "saddle" ->
  obj st = Some p0 ->
  let r := useFrame md manifold camDir dt st in
  let d := chartDisplacement 1 (keys st) camDir (clampDt dt) in
  selectLambda manifold (chart st) = 1
  /\ snd r = Some (mkPose (mkVec3 0 0 0) (snd d))
  /\ obj (fst r) = Some (mkVec3 0 0 0)
  /\ chart (fst r) = V2.add (chart st) (fst d).
Proof.
  intros Hmd H1 H2 Ho r d. unfold r, d, useFrame. rewrite Hmd.
  unfold stepRiemann. rewrite Ho.
  rewrite (selectLambda_default _ _ H1 H2).
  destruct (chartDisplacement 1 (keys st) camDir (clampDt dt)) as [du y].
  rewrite (selectEmbed_default _ _ H1 H2). simpl.
  repeat split; reflexivity.
Qed.

Lemma unknown_manifold_default_witness :
  String.eqb "riemann" "euclid" = false
  /\ "torus" <> "sphere"
  /\ "torus" <> "saddle"
  /\ obj pressW = Some (mkVec3 0 (12 / 10) 4)
  /\ selectLambda "torus" (chart pressW) = 1
  /\ obj (fst (useFrame "riemann" "torus" camForward (1 / 10) pressW))
     = Some (mkVec3 0 0 0)
  /\ chart (fst (useFrame "riemann" "torus" camForward (1 / 10) pressW))
     = V2.add (chart pressW)
         (fst (chartDisplacement 1 (keys pressW) camForward
                                 (clampDt (1 / 10)))).
Proof.
  assert (N1 : "torus" <> "sphere") by discriminate.
  assert (N2 : "torus" <> "saddle") by discriminate.
  destruct (unknown_manifold_default "riemann" "torus" camForward (1 / 10)
              pressW (mkVec3 0 (12 / 10) 4) eq_refl N1 N2 eq_refl)
    as (H1 & _ & H3 & H4).
  repeat split; assumption.
Defined.

(** *** Mode and manifold transitions *)

Lemma afterOneCurvedFrame_chart :
  chart (player afterOneCurvedFrame) = mkVec2 0 (7 / 150).
Proof.
  change (chart (player afterOneCurvedFrame))
    with (chart (fst (useFrame "riemann" "sphere" camForward (1 / 10) pressW))).
  rewrite scenario_step. reflexivity.
Qed.

(** C3, as the spec states it, fails on the code: after one curved frame has
    moved the chart position to (0, 7/150), switching the manifold from
    sphere to saddle is a transition, and the chart position is still
    (0, 7/150), not the origin. *)
Lemma transition_reset_counterexample :
  isTransition afterOneCurvedFrame (SetManifold "saddle" 2) = true
  /\ chart (player (App_step afterOneCurvedFrame (SetManifold "saddle" 2)))
     = mkVec2 0 (7 / 150)
  /\ chart (player (App_step afterOneCurvedFrame (SetManifold "saddle" 2)))
     <> mkVec2 0 0.
Proof.
  assert (Hc : chart (player (App_step afterOneCurvedFrame
                                       (SetManifold "saddle" 2)))
               = mkVec2 0 (7 / 150)).
  { rewrite <- afterOneCurvedFrame_chart. reflexivity. }
  split; [reflexivity|]. split; [exact Hc|].
  rewrite Hc. intros H. apply (f_equal v2y) in H. simpl in H. lra.
Qed.

(** C3 (amended): every transition of the mode/manifold state is immediate
    (the state holds the new tag and the transition time right after the
    event) and leaves the player's Cartesian position, velocity, chart
    position and grounded flag as they were; the reset to Cartesian position
    (0, 1.2, 4), zero velocity and chart position (0, 0) happens once, when
    the player is mounted. *)
Theorem transition_keeps_position (a : App) (e : Event) :
  isTransition a e = true ->
  player (App_step a e) = player a
  /\ (forall m now, e = SetMode m now ->
        mode (App_step a e) = m /\ manifold (App_step a e) = manifold a
        /\ transitionTS (App_step a e) = now)
  /\ (forall m now, e = SetManifold m now ->
        manifold (App_step a e) = m /\ mode (App_step a e) = mode a
        /\ transitionTS (App_step a e) = now)
  /\ (forall now,
        obj (player (App_mount now)) = Some (mkVec3 0 (12 / 10) 4)
        /\ vel (player (App_mount now)) = mkVec3 0 0 0
        /\ chart (player (App_mount now)) = mkVec2 0 0).
Proof.
  intros Ht.
  destruct e as [m now|m now|c|c|d dt]; simpl in Ht; try discriminate.
  - apply negb_true_iff in Ht. simpl. rewrite Ht.
    split; [reflexivity|]. split.
    + intros m' now' E. injection E as <- <-. repeat split.
    + split; [intros m' now' E; discriminate|].
      intros now'. repeat split.
  - apply negb_true_iff in Ht. simpl. rewrite Ht.
    split; [reflexivity|]. split.
    + intros m' now' E. discriminate.
    + split; [intros m' now' E; injection E as <- <-; repeat split|].
      intros now'. repeat split.
Qed.

Lemma transition_keeps_position_witness :
  isTransition afterOneCurvedFrame (SetManifold "saddle" 2) = true
  /\ player (App_step afterOneCurvedFrame (SetManifold "saddle" 2))
     = player afterOneCurvedFrame.
Proof.
  split; [reflexivity|].
  exact (proj1 (transition_keeps_position afterOneCurvedFrame
                  (SetManifold "saddle" 2) eq_refl)).
Defined.

(** ** Theorems: the great-circle sampler *)

Lemma V3_length_of_lengthSq (a : Vec3) : V3.lengthSq a = 1 -> V3.length a = 1.
Proof. intros H. unfold V3.length. rewrite H. apply sqrt_1. Qed.

Lemma V3_lengthSq_of_length (a : Vec3) : V3.length a = 1 -> V3.lengthSq a = 1.
Proof.
  intros H. unfold V3.length in H.
  rewrite <- (sqrt_sqrt _ (V3_lengthSq_nonneg a)), H. ring.
Qed.

(** Cauchy-Schwarz, through Lagrange's identity. *)
Lemma V3_dot_sq_le (a b : Vec3) :
  V3.dot a b * V3.dot a b <= V3.lengthSq a * V3.lengthSq b.
Proof.
  pose proof (V3_lengthSq_nonneg (V3.crossVectors a b)) as H.
  replace (V3.lengthSq (V3.crossVectors a b))
    with (V3.lengthSq a * V3.lengthSq b - V3.dot a b * V3.dot a b) in H
    by (destruct a, b; unfold V3.lengthSq, V3.dot, V3.crossVectors; simpl; ring).
  lra.
Qed.

Lemma sumsq3_zero (x y z : R) :
  x * x + y * y + z * z = 0 -> x = 0 /\ y = 0 /\ z = 0.
Proof.
  intros H.
  pose proof (Rle_0_sqr x) as Hx. pose proof (Rle_0_sqr y) as Hy.
  pose proof (Rle_0_sqr z) as Hz. unfold Rsqr in *.
  assert (Ex : x * x = 0) by lra.
  assert (Ey : y * y = 0) by lra.
  assert (Ez : z * z = 0) by lra.
  repeat split.
  - destruct (Rmult_integral _ _ Ex); assumption.
  - destruct (Rmult_integral _ _ Ey); assumption.
  - destruct (Rmult_integral _ _ Ez); assumption.
Qed.

(** No sample parameter sits at an odd multiple of PI/4: 13 * (i - 110)
    is never 550 * (2k + 1) for an index i between 0 and 220. *)
Lemma sample_cos2_nonzero (i : nat) :
  (i <= N)%nat -> cos (2 * ((INR i / INR N - 5 / 10) * arc)) <> 0.
Proof.
  intros Hi Hc. apply cos_eq_0_0 in Hc. destruct Hc as [k Hk].
  unfold arc in Hk.
  assert (HN : INR N = 220).
  { rewrite INR_IZR_INZ. reflexivity. }
  rewrite HN in Hk.
  pose proof PI_RGT_0 as Hpi.
  assert (E : 13 * INR i - 1430 = 1100 * IZR k + 550).
  { apply (Rmult_eq_reg_r PI); [|lra].
    replace ((13 * INR i - 1430) * PI)
      with (1100 * (2 * ((INR i / 220 - 5 / 10) * (PI * (13 / 10)))))
      by field.
    rewrite Hk. field. }
  rewrite INR_IZR_INZ in E.
  assert (Ez : (13 * Z.of_nat i - 1430 = 1100 * k + 550)%Z).
  { apply eq_IZR. rewrite minus_IZR, plus_IZR, !mult_IZR. exact E. }
  unfold N in Hi. lia.
Qed.

(** The fallback tangent is never the zero vector: |d - r*p0| >= 1 - r. *)
Lemma fallback_tangent_nonzero (d p0 : Vec3) (r : R) :
  V3.lengthSq d = 1 -> V3.lengthSq p0 = 1 -> 0 <= r < 1 ->
  0 < V3.lengthSq (V3.sub d (V3.multiplyScalar p0 r)).
Proof.
  intros Hd Hp Hr.
  pose proof (V3_dot_sq_le d p0) as Hcs. rewrite Hd, Hp in Hcs.
  assert (Hc : V3.dot d p0 <= 1) by nra.
  replace (V3.lengthSq (V3.sub d (V3.multiplyScalar p0 r)))
    with (V3.lengthSq d - 2 * r * V3.dot d p0 + r * r * V3.lengthSq p0)
    by (destruct d, p0; unfold V3.lengthSq, V3.dot, V3.sub, V3.multiplyScalar;
        simpl; ring).
  rewrite Hd, Hp. nra.
Qed.

(** The direction [v] of the circle is a unit vector, on either branch. *)
Lemma circle_direction_unit (rnd : Vec3 * R) (p0 t : Vec3) :
  V3.lengthSq (fst rnd) = 1 -> V3.lengthSq p0 = 1 -> 0 <= snd rnd < 1 ->
  V3.lengthSq
    (V3.normalize
       (if Rlt_dec (V3.lengthSq t) (1 / 1000000)
        then V3.normalize (V3.sub (fst rnd) (V3.multiplyScalar p0 (snd rnd)))
        else t)) = 1.
Proof.
  intros Hd Hp Hr.
  destruct (Rlt_dec (V3.lengthSq t) (1 / 1000000)) as [L|L].
  - apply V3_lengthSq_normalize.
    rewrite V3_lengthSq_normalize; [lra|].
    apply fallback_tangent_nonzero; assumption.
  - apply V3_lengthSq_normalize. lra.
Qed.

Section UnitPair.

(** Two unit vectors: the base point and the direction of the circle. *)
Variables p0 v : Vec3.
Hypothesis p0_unit : V3.lengthSq p0 = 1.
Hypothesis v_unit : V3.lengthSq v = 1.

(** A vanishing combination of the two has |cs| = |ss|. *)
Lemma circle_point_zero (cs ss : R) :
  V3.lengthSq (V3.add (V3.multiplyScalar p0 cs) (V3.multiplyScalar v ss)) = 0 ->
  cs * cs = ss * ss.
Proof.
  intros H0. revert p0_unit v_unit H0.
  destruct p0 as [a b c], v as [d e f].
  unfold V3.lengthSq, V3.dot, V3.add, V3.multiplyScalar; simpl.
  intros Hp Hv H0.
  destruct (sumsq3_zero _ _ _ H0) as (Hx & Hy & Hz).
  assert (Ea : a * cs = - (d * ss)) by lra.
  assert (Eb : b * cs = - (e * ss)) by lra.
  assert (Ec : c * cs = - (f * ss)) by lra.
  replace (cs * cs) with (cs * cs * (a * a + b * b + c * c))
    by (rewrite Hp; ring).
  replace (ss * ss) with (ss * ss * (d * d + e * e + f * f))
    by (rewrite Hv; ring).
  replace (cs * cs * (a * a + b * b + c * c))
    with ((a * cs) * (a * cs) + (b * cs) * (b * cs) + (c * cs) * (c * cs))
    by ring.
  rewrite Ea, Eb, Ec. ring.
Qed.

(** A sampled point, once re-normalized, is on the unit sphere. *)
Lemma circle_sample_unit (i : nat) :
  (i <= N)%nat ->
  let s := (INR i / INR N - 5 / 10) * arc in
  V3.lengthSq
    (V3.normalize (V3.add (V3.multiplyScalar p0 (cos s))
                          (V3.multiplyScalar v (sin s)))) = 1.
Proof.
  intros Hi s.
  apply V3_lengthSq_normalize.
  set (g := V3.add _ _).
  destruct (V3_lengthSq_nonneg g) as [Hpos|Hz]; [exact Hpos|].
  exfalso. apply (sample_cos2_nonzero i Hi). fold s.
  rewrite cos_2a.
  rewrite (circle_point_zero (cos s) (sin s) (eq_sym Hz)). ring.
Qed.

End UnitPair.

Lemma makeGreatCircle_unit (rnd : Vec3 * R) (p0 : Vec3) (yw : R) :
  V3.lengthSq (fst rnd) = 1 -> 0 <= snd rnd < 1 -> V3.lengthSq p0 = 1 ->
  List.length (makeGreatCircle rnd p0 yw) = (N + 1)%nat
  /\ forall g, In g (makeGreatCircle rnd p0 yw) -> V3.length g = 1.
Proof.
  intros Hd Hr Hp. unfold makeGreatCircle. cbv zeta. split.
  - rewrite length_map, length_seq. reflexivity.
  - intros g Hg. apply in_map_iff in Hg. destruct Hg as (i & <- & Hi).
    apply in_seq in Hi. apply V3_length_of_lengthSq.
    apply circle_sample_unit; [exact Hp | | lia].
    apply circle_direction_unit; assumption.
Qed.

(** C7: for every unit-norm base point and every heading, the sampler draws
    three arcs of N + 1 points each, and every sampled point, after the
    re-normalization, has norm exactly 1, hence within 1e-6 of 1. *)
Theorem geodesic_points_unit (ps : Pose) (rnd : nat -> Vec3 * R) :
  V3.length (pos ps) = 1 ->
  (forall i, V3.lengthSq (fst (rnd i)) = 1 /\ 0 <= snd (rnd i) < 1) ->
  exists sets,
    GeodesicTracers true "sphere" (Some ps) rnd = Some sets
    /\ List.length sets = 3%nat
    /\ forall pts, In pts sets ->
         List.length pts = (N + 1)%nat
         /\ forall g, In g pts ->
              V3.length g = 1 /\ Rabs (V3.length g - 1) <= 1 / 1000000.
Proof.
  intros Hlen Hrnd. apply V3_lengthSq_of_length in Hlen.
  unfold GeodesicTracers.
  change (negb true || negb (String.eqb "sphere" "sphere")) with false.
  cbv iota zeta. eexists. split; [reflexivity|]. split.
  - rewrite length_map, length_combine, length_seq. reflexivity.
  - intros pts Hin. apply in_map_iff in Hin.
    destruct Hin as ([i off] & <- & _). simpl fst. simpl snd.
    destruct (Hrnd i) as [Hd Hr].
    rewrite (V3_normalize_unit _ Hlen).
    destruct (makeGreatCircle_unit (rnd i) (pos ps) (orZero (yaw ps) + off)
                Hd Hr Hlen) as [Hl Hall].
    split; [exact Hl|].
    intros g Hg. rewrite (Hall g Hg). split; [reflexivity|].
    replace (1 - 1) with 0 by ring. rewrite Rabs_R0. lra.
Qed.

Lemma geodesic_points_unit_witness :
  V3.length (pos southPose) = 1
  /\ (forall i, V3.lengthSq (fst (fixedDraw i)) = 1
                /\ 0 <= snd (fixedDraw i) < 1)
  /\ exists sets,
       GeodesicTracers true "sphere" (Some southPose) fixedDraw = Some sets
       /\ List.length sets = 3%nat
       /\ forall pts, In pts sets ->
            List.length pts = (N + 1)%nat
            /\ forall g, In g pts ->
                 V3.length g = 1 /\ Rabs (V3.length g - 1) <= 1 / 1000000.
Proof.
  assert (H1 : V3.length (pos southPose) = 1).
  { apply V3_length_of_lengthSq.
    unfold V3.lengthSq, V3.dot; simpl. ring. }
  assert (H2 : forall i, V3.lengthSq (fst (fixedDraw i)) = 1
                         /\ 0 <= snd (fixedDraw i) < 1).
  { intros i. unfold V3.lengthSq, V3.dot; simpl. split; [ring|lra]. }
  split; [exact H1|]. split; [exact H2|].
  exact (geodesic_points_unit southPose fixedDraw H1 H2).
Defined.

(** ** Further theorems: chart math *)

Lemma sphereLambda_times (x y : R) :
  sphereLambda (mkVec2 x y) * (1 + (x * x + y * y)) = 2.
Proof. unfold sphereLambda; simpl. field. nra. Qed.

Lemma sphereLambda_bounds (x y : R) :
  0 < sphereLambda (mkVec2 x y) <= 2
  /\ (sphereLambda (mkVec2 x y) = 2 <-> x = 0 /\ y = 0).
Proof.
  pose proof (sphereLambda_times x y) as Ht.
  assert (Hsq : 0 <= x * x + y * y) by nra.
  set (l := sphereLambda (mkVec2 x y)) in *.
  assert (Hl : 0 < l) by nra.
  split; [split; [exact Hl | nra]|]. split.
  - intros E. rewrite E in Ht. split; nra.
  - intros [-> ->]. nra.
Qed.

Lemma stereoToSphere_chord_eq (a b : Vec2) :
  V3.lengthSq (V3.sub (stereoToSphere a) (stereoToSphere b))
  = sphereLambda a * sphereLambda b
    * ((v2x a - v2x b) * (v2x a - v2x b) + (v2y a - v2y b) * (v2y a - v2y b)).
Proof.
  destruct a as [x y], b as [u v].
  unfold V3.lengthSq, V3.dot, V3.sub, stereoToSphere, sphereLambda; simpl.
  pose proof (r2_plus_1_pos x y). pose proof (r2_plus_1_pos u v).
  field. split; lra.
Qed.

(** The stereographic chart is conformal with factor [sphereLambda]: the
    squared chord between two embedded points is the squared chart distance
    times the metric factors at the two ends; so the chord is never longer
    than twice the chart distance. *)
Theorem stereoToSphere_chord (a b : Vec2) :
  let d2 := (v2x a - v2x b) * (v2x a - v2x b)
            + (v2y a - v2y b) * (v2y a - v2y b) in
  V3.lengthSq (V3.sub (stereoToSphere a) (stereoToSphere b))
  = sphereLambda a * sphereLambda b * d2
  /\ V3.lengthSq (V3.sub (stereoToSphere a) (stereoToSphere b)) <= 4 * d2.
Proof.
  intros d2. pose proof (stereoToSphere_chord_eq a b) as E. fold d2 in E.
  split; [exact E|]. rewrite E.
  destruct a as [x y], b as [u v].
  destruct (sphereLambda_bounds x y) as (Ha & _).
  destruct (sphereLambda_bounds u v) as (Hb & _).
  assert (Hd : 0 <= d2).
  { unfold d2. cbn [v2x v2y].
    pose proof (Rle_0_sqr (x - u)). pose proof (Rle_0_sqr (y - v)).
    unfold Rsqr in *. lra. }
  clearbody d2.
  set (la := sphereLambda (mkVec2 x y)) in *.
  set (lb := sphereLambda (mkVec2 u v)) in *.
  assert (Hp : la * lb <= 4) by nra.
  assert (Hq : 0 <= (4 - la * lb) * d2) by (apply Rmult_le_pos; lra).
  lra.
Qed.

(** The height of the embedded point is 1 minus the metric factor; it stays
    in [-1, 1), so the projection pole (0, 0, 1) is never produced, and it
    is -1 only at the chart origin. *)
Theorem stereoToSphere_height (c : Vec2) :
  v3z (stereoToSphere c) = 1 - sphereLambda c
  /\ -1 <= v3z (stereoToSphere c) < 1
  /\ (v3z (stereoToSphere c) = -1 <-> c = mkVec2 0 0).
Proof.
  destruct c as [x y].
  destruct (sphereLambda_bounds x y) as (Hr & Hz).
  assert (Hh : v3z (stereoToSphere (mkVec2 x y))
               = 1 - sphereLambda (mkVec2 x y)).
  { unfold stereoToSphere, sphereLambda; simpl.
    pose proof (r2_plus_1_pos x y). field. lra. }
  split; [exact Hh|]. rewrite Hh. split; [lra|]. split.
  - intros E. destruct (proj1 Hz) as [-> ->]; [lra|reflexivity].
  - intros E. injection E as -> ->.
    destruct (sphereLambda_bounds 0 0) as (_ & Hz0).
    rewrite (proj2 Hz0 (conj eq_refl eq_refl)). lra.
Qed.

(** Distinct chart positions are embedded at distinct points of the
    sphere. *)
Theorem stereoToSphere_injective (a b : Vec2) :
  stereoToSphere a = stereoToSphere b -> a = b.
Proof.
  intros E.
  pose proof (stereoToSphere_chord_eq a b) as Hc. rewrite E in Hc.
  destruct a as [x y], b as [u v].
  destruct (sphereLambda_bounds x y) as (Ha & _).
  destruct (sphereLambda_bounds u v) as (Hb & _).
  replace (V3.lengthSq (V3.sub (stereoToSphere (mkVec2 u v))
                               (stereoToSphere (mkVec2 u v)))) with 0 in Hc
    by (unfold V3.lengthSq, V3.dot, V3.sub; simpl; ring).
  cbn [v2x v2y] in Hc.
  assert (Hp : 0 < sphereLambda (mkVec2 x y) * sphereLambda (mkVec2 u v))
    by (apply Rmult_lt_0_compat; lra).
  assert (Hs : (x - u) * (x - u) + (y - v) * (y - v) = 0).
  { symmetry in Hc. apply Rmult_integral in Hc. destruct Hc; lra. }
  destruct (sumsq3_zero (x - u) (y - v) 0) as (Hx & Hy & _); [lra|].
  f_equal; lra.
Qed.

(** The demo metric factor of the saddle lies in (0, 1] for every stiffness
    k, and is 1 at the saddle point. *)
Theorem saddleLambda_range (c : Vec2) (k : R) :
  0 < saddleLambda_k c k <= 1
  /\ saddleLambda_k (mkVec2 0 0) k = 1
  /\ 0 < saddleLambda c <= 1.
Proof.
  assert (G : forall c' k', 0 < saddleLambda_k c' k' <= 1).
  { intros [x y] k'. unfold saddleLambda_k; simpl.
    set (q := 1 + 4 * k' * k' * (x * x + y * y)).
    assert (Hq : 1 <= q) by (unfold q; nra).
    assert (Hs : 1 <= sqrt q).
    { rewrite <- sqrt_1. apply sqrt_le_1_alt, Hq. }
    split.
    - apply Rdiv_lt_0_compat; lra.
    - apply (Rmult_le_reg_r (sqrt q)); [lra|].
      unfold Rdiv. rewrite Rmult_assoc, Rinv_l by lra. lra. }
  split; [apply G|]. split; [|apply G].
  unfold saddleLambda_k; simpl.
  replace (1 + 4 * k * k * (0 * 0 + 0 * 0)) with 1 by ring.
  rewrite sqrt_1. field.
Qed.

(** The saddle keeps the chart coordinates as x and y, and its height
    vanishes exactly on the two diagonals of the chart. *)
Theorem saddleEmbed_height (c : Vec2) :
  v3x (saddleEmbed c) = v2x c /\ v3y (saddleEmbed c) = v2y c
  /\ (v3z (saddleEmbed c) = 0 <-> v2x c = v2y c \/ v2x c = - v2y c).
Proof.
  destruct c as [x y]. unfold saddleEmbed, saddleEmbed_k; simpl.
  split; [reflexivity|]. split; [reflexivity|]. split.
  - intros H.
    assert (Hf : (x - y) * (x + y) = 0) by nra.
    apply Rmult_integral in Hf. destruct Hf; [left|right]; lra.
  - intros [-> | ->]; ring.
Qed.

Lemma clamp_interior (v a b : R) :
  (a <= b -> a <= clamp v a b <= b) /\ (a <= v <= b -> clamp v a b = v).
Proof.
  unfold clamp. split.
  - intros Hab. split; [apply Rmax_l|].
    apply Rmax_lub; [exact Hab | apply Rmin_l].
  - intros [H1 H2]. rewrite Rmin_right by exact H2.
    apply Rmax_right, H1.
Qed.

(** [clamp] returns a value of the interval, and the value itself when it
    is already inside. *)
Theorem clamp_range (v a b : R) :
  a <= b ->
  a <= clamp v a b <= b /\ (a <= v <= b -> clamp v a b = v).
Proof.
  intros Hab. split.
  - apply (proj1 (clamp_interior v a b)), Hab.
  - apply (proj2 (clamp_interior v a b)).
Qed.

Lemma clamp_range_witness :
  0 <= 1 /\ 0 <= clamp 5 0 1 <= 1.
Proof.
  split; [lra|]. exact (proj1 (clamp_range 5 0 1 Rle_0_1)).
Defined.

(** ** Further theorems: the saddle mesh *)

(** The Gaussian curvature used for the heatmap is negative everywhere, and
    the heatmap parameter is 1 / (1 + 4 k^2 r^2)^2: the clamp never cuts, the
    parameter lies in (0, 1] and is 1 at the saddle point. *)
Theorem SaddleSurface_heat (u v : R) :
  let q := 1 + 4 * SaddleSurface.k * SaddleSurface.k * (u * u + v * v) in
  SaddleSurface.curvature u v < 0
  /\ SaddleSurface.heat u v = 1 / (q * q)
  /\ 0 < SaddleSurface.heat u v <= 1
  /\ SaddleSurface.heat 0 0 = 1.
Proof.
  intros q.
  assert (G : forall a b,
             let q' := 1 + 4 * SaddleSurface.k * SaddleSurface.k
                           * (a * a + b * b) in
             SaddleSurface.curvature a b < 0
             /\ SaddleSurface.heat a b = 1 / (q' * q')
             /\ 0 < 1 / (q' * q') <= 1).
  { intros a b q'.
    assert (Hq : 1 <= q') by (unfold q', SaddleSurface.k; nra).
    assert (Hqq : 1 <= q' * q') by nra.
    assert (Hk : 0 < 4 * SaddleSurface.k * SaddleSurface.k)
      by (unfold SaddleSurface.k; lra).
    assert (Hc : SaddleSurface.curvature a b
                 = - (4 * SaddleSurface.k * SaddleSurface.k / (q' * q'))).
    { unfold SaddleSurface.curvature. cbv zeta. fold q'.
      simpl pow. field. lra. }
    clearbody q'.
    assert (Hk0 : SaddleSurface.k <> 0) by (unfold SaddleSurface.k; lra).
    assert (Hpos : 0 < 4 * SaddleSurface.k * SaddleSurface.k / (q' * q'))
      by (apply Rdiv_lt_0_compat; lra).
    assert (Hr : 0 < 1 / (q' * q') <= 1).
    { split; [apply Rdiv_lt_0_compat; lra|].
      apply (Rmult_le_reg_r (q' * q')); [lra|].
      unfold Rdiv. rewrite Rmult_assoc, Rinv_l by lra. lra. }
    split; [rewrite Hc; lra|]. split; [|exact Hr].
    unfold SaddleSurface.heat. rewrite Hc, Rabs_Ropp, Rabs_right by lra.
    replace (4 * SaddleSurface.k * SaddleSurface.k / (q' * q')
             / SaddleSurface.Kmax) with (1 / (q' * q'))
      by (unfold SaddleSurface.Kmax; field; split; [lra | exact Hk0]).
    apply (proj2 (clamp_interior _ _ _)). lra. }
  destruct (G u v) as (H1 & H2 & H3). fold q in H2, H3.
  split; [exact H1|]. split; [exact H2|]. split; [rewrite H2; exact H3|].
  destruct (G 0 0) as (_ & H0 & _). rewrite H0. field_simplify; lra.
Qed.

Lemma SaddleSurface_row_length (i : nat) :
  List.length
    (map (fun j : nat =>
            saddleEmbed_k (mkVec2 (SaddleSurface.coord i)
                                  (SaddleSurface.coord j)) SaddleSurface.k)
         (seq 0 (SaddleSurface.seg + 1)))
  = (SaddleSurface.seg + 1)%nat.
Proof. rewrite length_map, length_seq. reflexivity. Qed.

Lemma SaddleSurface_vertices_length :
  List.length SaddleSurface.vertices
  = ((SaddleSurface.seg + 1) * (SaddleSurface.seg + 1))%nat.
Proof.
  unfold SaddleSurface.vertices.
  rewrite flat_map_constant_length with (c := (SaddleSurface.seg + 1)%nat).
  - rewrite length_seq. reflexivity.
  - intros i _. apply SaddleSurface_row_length.
Qed.

(** The mesh has (seg + 1)^2 vertices, three coordinates for each, and
    six indices for each of the seg^2 cells; every index refers to an
    existing vertex. *)
Theorem SaddleSurface_index_range :
  List.length SaddleSurface.vertices
  = ((SaddleSurface.seg + 1) * (SaddleSurface.seg + 1))%nat
  /\ List.length SaddleSurface.positions
     = (3 * List.length SaddleSurface.vertices)%nat
  /\ List.length SaddleSurface.indices
     = (6 * (SaddleSurface.seg * SaddleSurface.seg))%nat
  /\ forall n, In n SaddleSurface.indices ->
       (n < List.length SaddleSurface.vertices)%nat.
Proof.
  split; [exact SaddleSurface_vertices_length|]. split; [|split].
  - unfold SaddleSurface.positions.
    rewrite flat_map_constant_length with (c := 3%nat); [lia|].
    intros p _. reflexivity.
  - unfold SaddleSurface.indices.
    rewrite flat_map_constant_length with (c := (6 * SaddleSurface.seg)%nat).
    + rewrite length_seq. lia.
    + intros i _.
      rewrite flat_map_constant_length with (c := 6%nat).
      * rewrite length_seq. lia.
      * intros j _. reflexivity.
  - intros n Hn. rewrite SaddleSurface_vertices_length.
    unfold SaddleSurface.indices in Hn.
    apply in_flat_map in Hn. destruct Hn as (i & Hi & Hn).
    apply in_flat_map in Hn. destruct Hn as (j & Hj & Hn).
    apply in_seq in Hi. apply in_seq in Hj.
    unfold SaddleSurface.quad in Hn. cbv zeta in Hn.
    set (w := (SaddleSurface.seg + 1)%nat) in *.
    assert (Hw : (SaddleSurface.seg + 1 = w)%nat) by reflexivity.
    assert (Hrow : (i * w + w <= SaddleSurface.seg * w)%nat) by nia.
    assert (Htot : (SaddleSurface.seg * w + w = w * w)%nat) by nia.
    simpl In in Hn.
    destruct Hn as [E|[E|[E|[E|[E|[E|[]]]]]]]; subst n; lia.
Qed.

(** The coordinates of the grid stay in the square of half-width [size]. *)
Lemma SaddleSurface_coord_range (i : nat) :
  (i <= SaddleSurface.seg)%nat -> -3 <= SaddleSurface.coord i <= 3.
Proof.
  intros Hi. unfold SaddleSurface.coord, SaddleSurface.size.
  assert (Hs : INR SaddleSurface.seg = 80)
    by (rewrite INR_IZR_INZ; reflexivity).
  pose proof (pos_INR i) as H0. apply le_INR in Hi. rewrite Hs in *.
  lra.
Qed.

(** Every vertex of the mesh lies on the saddle z = k (x^2 - y^2) over the
    square [-3, 3] x [-3, 3], so its height is at most 1.35 in absolute
    value. *)
Theorem SaddleSurface_vertices_on_saddle (p : Vec3) :
  In p SaddleSurface.vertices ->
  -3 <= v3x p <= 3 /\ -3 <= v3y p <= 3
  /\ v3z p = (v3x p * v3x p - v3y p * v3y p) * SaddleSurface.k
  /\ Rabs (v3z p) <= 135 / 100.
Proof.
  intros Hp. unfold SaddleSurface.vertices in Hp.
  apply in_flat_map in Hp. destruct Hp as (i & Hi & Hp).
  apply in_map_iff in Hp. destruct Hp as (j & <- & Hj).
  apply in_seq in Hi. apply in_seq in Hj.
  assert (Hx : -3 <= SaddleSurface.coord i <= 3)
    by (apply SaddleSurface_coord_range; lia).
  assert (Hy : -3 <= SaddleSurface.coord j <= 3)
    by (apply SaddleSurface_coord_range; lia).
  unfold saddleEmbed_k; simpl.
  split; [exact Hx|]. split; [exact Hy|]. split; [reflexivity|].
  unfold SaddleSurface.k. apply Rabs_le. nra.
Qed.

Lemma SaddleSurface_vertices_on_saddle_witness :
  In (mkVec3 (-3) (-3) 0) SaddleSurface.vertices
  /\ Rabs (v3z (mkVec3 (-3) (-3) 0)) <= 135 / 100.
Proof.
  assert (Hin : In (mkVec3 (-3) (-3) 0) SaddleSurface.vertices).
  { unfold SaddleSurface.vertices. apply in_flat_map.
    exists 0%nat. split; [apply in_seq; unfold SaddleSurface.seg; lia|].
    apply in_map_iff. exists 0%nat.
    split; [|apply in_seq; unfold SaddleSurface.seg; lia].
    assert (Hc : SaddleSurface.coord 0 = -3).
    { unfold SaddleSurface.coord, SaddleSurface.size.
      replace (INR SaddleSurface.seg) with 80
        by (rewrite INR_IZR_INZ; reflexivity).
      replace (INR 0) with 0 by reflexivity. field. }
    rewrite Hc. unfold saddleEmbed_k; simpl v2x; simpl v2y.
    f_equal. ring. }
  split; [exact Hin|].
  exact (proj2 (proj2 (proj2 (SaddleSurface_vertices_on_saddle _ Hin)))).
Defined.

(** Reading block [i], offset [j] of a concatenation of blocks of equal
    length [c]. *)
Lemma nth_flat_map_block (A B : Type) (f : A -> list B) (c : nat)
  (l : list A) (i j : nat) (d : B) (a0 : A) :
  (forall x, List.length (f x) = c) ->
  (i < List.length l)%nat -> (j < c)%nat ->
  nth (i * c + j) (flat_map f l) d = nth j (f (nth i l a0)) d.
Proof.
  intros Hc. revert i.
  induction l as [|x l IH]; intros i Hi Hj; simpl in Hi; [lia|].
  simpl flat_map. destruct i as [|i].
  - simpl. apply app_nth1. rewrite Hc. exact Hj.
  - assert (E : (S i * c + j = c + (i * c + j))%nat) by lia.
    rewrite E. rewrite app_nth2.
    2:{ rewrite Hc. lia. }
    rewrite Hc. replace (c + (i * c + j) - c)%nat with (i * c + j)%nat
      by lia.
    simpl nth. apply IH; [lia | exact Hj].
Qed.

Lemma SaddleSurface_nth (i j : nat) (d : Vec3) :
  (i <= SaddleSurface.seg)%nat -> (j <= SaddleSurface.seg)%nat ->
  nth (i * (SaddleSurface.seg + 1) + j) SaddleSurface.vertices d
  = saddleEmbed_k (mkVec2 (SaddleSurface.coord i) (SaddleSurface.coord j))
                  SaddleSurface.k.
Proof.
  intros Hi Hj. unfold SaddleSurface.vertices.
  rewrite (nth_flat_map_block _ _ _ (SaddleSurface.seg + 1)%nat _ _ _ _ 0%nat).
  - rewrite seq_nth by lia. rewrite Nat.add_0_l.
    rewrite (nth_indep _ d
               (saddleEmbed_k (mkVec2 (SaddleSurface.coord i)
                                      (SaddleSurface.coord 0%nat))
                              SaddleSurface.k))
      by (rewrite length_map, length_seq; lia).
    rewrite (map_nth (fun j0 : nat =>
               saddleEmbed_k (mkVec2 (SaddleSurface.coord i)
                                     (SaddleSurface.coord j0))
                             SaddleSurface.k) _ 0%nat j).
    rewrite seq_nth by lia. rewrite Nat.add_0_l. reflexivity.
  - intros x. apply SaddleSurface_row_length.
  - rewrite length_seq. lia.
  - lia.
Qed.

(** The vertex of grid position (i, j) sits at index i (seg + 1) + j, and
    the six indices pushed for a cell are the corners of that cell: the
    triangles (i,j), (i,j+1), (i+1,j+1) and (i,j), (i+1,j+1), (i+1,j). *)
Theorem SaddleSurface_cell_corners (i j : nat) (d : Vec3) :
  (i < SaddleSurface.seg)%nat -> (j < SaddleSurface.seg)%nat ->
  let V := fun a b : nat =>
             saddleEmbed_k (mkVec2 (SaddleSurface.coord a)
                                   (SaddleSurface.coord b))
                           SaddleSurface.k in
  map (fun n => nth n SaddleSurface.vertices d) (SaddleSurface.quad i j)
  = [V i j; V i (j + 1)%nat; V (i + 1)%nat (j + 1)%nat;
     V i j; V (i + 1)%nat (j + 1)%nat; V (i + 1)%nat j].
Proof.
  intros Hi Hj V. unfold SaddleSurface.quad. cbv zeta.
  set (w := (SaddleSurface.seg + 1)%nat).
  replace (i * w + j + 1)%nat with (i * w + (j + 1))%nat by lia.
  replace (i * w + j + w + 1)%nat with ((i + 1) * w + (j + 1))%nat by lia.
  replace (i * w + j + w)%nat with ((i + 1) * w + j)%nat by lia.
  unfold w. cbn [map].
  rewrite !SaddleSurface_nth by lia. reflexivity.
Qed.

Lemma SaddleSurface_cell_corners_witness :
  (0 < SaddleSurface.seg)%nat
  /\ map (fun n => nth n SaddleSurface.vertices V3.zero)
         (SaddleSurface.quad 0 0)
     = [saddleEmbed_k (mkVec2 (SaddleSurface.coord 0) (SaddleSurface.coord 0))
                      SaddleSurface.k;
        saddleEmbed_k (mkVec2 (SaddleSurface.coord 0) (SaddleSurface.coord 1))
                      SaddleSurface.k;
        saddleEmbed_k (mkVec2 (SaddleSurface.coord 1) (SaddleSurface.coord 1))
                      SaddleSurface.k;
        saddleEmbed_k (mkVec2 (SaddleSurface.coord 0) (SaddleSurface.coord 0))
                      SaddleSurface.k;
        saddleEmbed_k (mkVec2 (SaddleSurface.coord 1) (SaddleSurface.coord 1))
                      SaddleSurface.k;
        saddleEmbed_k (mkVec2 (SaddleSurface.coord 1) (SaddleSurface.coord 0))
                      SaddleSurface.k].
Proof.
  assert (H : (0 < SaddleSurface.seg)%nat) by (unfold SaddleSurface.seg; lia).
  split; [exact H|].
  exact (SaddleSurface_cell_corners 0 0 V3.zero H H).
Defined.

(** ** Further theorems: the portal ring *)

Lemma portal_progress_range (t : R) :
  0 <= Rmin 1 (Rmax 0 (t / (9 / 10))) <= 1.
Proof.
  split.
  - apply Rmin_glb; [lra | apply Rmax_l].
  - apply Rmin_l.
Qed.

Lemma portal_progress_mono (t1 t2 : R) :
  t1 <= t2 ->
  Rmin 1 (Rmax 0 (t1 / (9 / 10))) <= Rmin 1 (Rmax 0 (t2 / (9 / 10))).
Proof.
  intros H. apply Rle_min_compat_l, Rle_max_compat_l. lra.
Qed.

Lemma PortalFX_frame_active (ts now : R) (r : Ring) :
  ts <> 0 -> (now - ts) / 1000 <= 9 / 10 ->
  PortalFX_frame true ts now (Some r)
  = let p := Rmin 1 (Rmax 0 ((now - ts) / 1000 / (9 / 10))) in
    Some (mkRing true (4 / 10 + 32 / 10 * p) (1 - p)
                 (15 / 10 * (1 - p) + 2 / 10)).
Proof.
  intros Hts Ht. unfold PortalFX_frame.
  destruct (Req_dec_T ts 0) as [E|_]; [contradiction|].
  simpl orb. cbv iota zeta.
  destruct (Rlt_dec (9 / 10) ((now - ts) / 1000)) as [L|_]; [lra|].
  reflexivity.
Qed.

(** While a transition is at most 0.9 s old, an enabled portal shows the
    ring with opacity in [0, 1], scale in [0.4, 3.6] and emissive intensity
    in [0.2, 1.7], whatever the ring looked like before; the scale is
    3.6 - 3.2 * opacity and the intensity 1.5 * opacity + 0.2. *)
Theorem PortalFX_window (ts now : R) (r : Ring) :
  ts <> 0 -> (now - ts) / 1000 <= 9 / 10 ->
  exists r', PortalFX_frame true ts now (Some r) = Some r'
    /\ ringVisible r' = true
    /\ 0 <= matOpacity r' <= 1
    /\ 4 / 10 <= ringScale r' <= 36 / 10
    /\ 2 / 10 <= matEmissive r' <= 17 / 10
    /\ ringScale r' = 36 / 10 - 32 / 10 * matOpacity r'
    /\ matEmissive r' = 15 / 10 * matOpacity r' + 2 / 10.
Proof.
  intros Hts Ht. rewrite (PortalFX_frame_active ts now r Hts Ht). cbv zeta.
  pose proof (portal_progress_range ((now - ts) / 1000)) as Hp.
  set (p := Rmin 1 _) in *.
  eexists. split; [reflexivity|]. simpl.
  repeat split; lra.
Qed.

Lemma PortalFX_window_witness :
  1000 <> 0 /\ (1450 - 1000) / 1000 <= 9 / 10
  /\ exists r', PortalFX_frame true 1000 1450 (Some (mkRing false 1 1 1))
                = Some r'
       /\ ringVisible r' = true /\ 0 <= matOpacity r' <= 1.
Proof.
  assert (H1 : 1000 <> 0) by lra.
  assert (H2 : (1450 - 1000) / 1000 <= 9 / 10) by lra.
  split; [exact H1|]. split; [exact H2|].
  destruct (PortalFX_window 1000 1450 (mkRing false 1 1 1) H1 H2)
    as (r' & E & Hv & Ho & _).
  exists r'. repeat split; try assumption; apply Ho.
Defined.

(** Within the window the ring only grows and fades: a later frame never
    has a smaller scale or a larger opacity than an earlier one. *)
Theorem PortalFX_monotone (ts now1 now2 : R) (r1 r2 r1' r2' : Ring) :
  ts <> 0 -> now1 <= now2 -> (now2 - ts) / 1000 <= 9 / 10 ->
  PortalFX_frame true ts now1 (Some r1) = Some r1' ->
  PortalFX_frame true ts now2 (Some r2) = Some r2' ->
  ringScale r1' <= ringScale r2' /\ matOpacity r2' <= matOpacity r1'
  /\ matEmissive r2' <= matEmissive r1'.
Proof.
  intros Hts Hn Ht E1 E2.
  rewrite PortalFX_frame_active in E1 by (try assumption; lra).
  rewrite PortalFX_frame_active in E2 by assumption.
  cbv zeta in E1, E2. injection E1 as <-. injection E2 as <-. simpl.
  assert (Hm : (now1 - ts) / 1000 <= (now2 - ts) / 1000) by lra.
  apply portal_progress_mono in Hm. repeat split; lra.
Qed.

Lemma PortalFX_monotone_witness :
  1000 <> 0 /\ 1200 <= 1450 /\ (1450 - 1000) / 1000 <= 9 / 10
  /\ forall r1' r2',
       PortalFX_frame true 1000 1200 (Some (mkRing false 1 1 1)) = Some r1' ->
       PortalFX_frame true 1000 1450 (Some (mkRing false 1 1 1)) = Some r2' ->
       ringScale r1' <= ringScale r2'.
Proof.
  assert (H1 : 1000 <> 0) by lra.
  assert (H2 : 1200 <= 1450) by lra.
  assert (H3 : (1450 - 1000) / 1000 <= 9 / 10) by lra.
  split; [exact H1|]. split; [exact H2|]. split; [exact H3|].
  intros r1' r2' E1 E2.
  exact (proj1 (PortalFX_monotone 1000 1200 1450 _ _ r1' r2' H1 H2 H3 E1 E2)).
Defined.

(** Outside the window the portal never animates: disabled, or before any
    transition was stamped, the ring is left as it is; more than 0.9 s
    after the stamp the ring is hidden and its scale, opacity and intensity
    are left alone; with the refs unattached nothing happens. *)
Theorem PortalFX_idle (enabled : bool) (ts now : R) (r : Ring) :
  (enabled = false \/ ts = 0 -> PortalFX_frame enabled ts now (Some r) = Some r)
  /\ (enabled = true -> ts <> 0 -> 9 / 10 < (now - ts) / 1000 ->
      PortalFX_frame enabled ts now (Some r)
      = Some (mkRing false (ringScale r) (matOpacity r) (matEmissive r)))
  /\ PortalFX_frame enabled ts now None = None.
Proof.
  split; [|split; [|reflexivity]].
  - intros [-> | ->]; unfold PortalFX_frame; [reflexivity|].
    destruct (Req_dec_T 0 0) as [_|C]; [|contradiction].
    rewrite orb_true_r. reflexivity.
  - intros -> Hts Ht. unfold PortalFX_frame.
    destruct (Req_dec_T ts 0) as [E|_]; [contradiction|].
    simpl orb. cbv iota zeta.
    destruct (Rlt_dec (9 / 10) ((now - ts) / 1000)) as [_|C]; [|contradiction].
    destruct r as [[|] s o e]; reflexivity.
Qed.

Lemma PortalFX_idle_witness :
  PortalFX_frame true 0 5000 (Some (mkRing true 2 (1 / 2) 1))
  = Some (mkRing true 2 (1 / 2) 1)
  /\ PortalFX_frame true 1000 2000 (Some (mkRing true 2 (1 / 2) 1))
     = Some (mkRing false 2 (1 / 2) 1).
Proof.
  destruct (PortalFX_idle true 0 5000 (mkRing true 2 (1 / 2) 1))
    as (H1 & _ & _).
  destruct (PortalFX_idle true 1000 2000 (mkRing true 2 (1 / 2) 1))
    as (_ & H2 & _).
  split.
  - apply H1. right. reflexivity.
  - apply H2; [reflexivity | lra | lra].
Defined.

(** ** Further theorems: the curved stepper *)

Lemma V2_length_zero : V2.length (mkVec2 0 0) = 0.
Proof.
  unfold V2.length, V2.lengthSq; simpl.
  replace (0 * 0 + 0 * 0) with 0 by ring. apply sqrt_0.
Qed.

Lemma want_zero_or_not (k : Keys) :
  (forwardOf k = 0 /\ strafeOf k = 0)
  \/ 0 < V2.lengthSq (mkVec2 (strafeOf k) (forwardOf k)).
Proof.
  destruct (Req_dec_T (forwardOf k) 0) as [F|F];
    [destruct (Req_dec_T (strafeOf k) 0) as [S|S]|].
  - left. split; assumption.
  - right. apply want_nonzero. right. exact S.
  - right. apply want_nonzero. left. exact F.
Qed.



(** However slow the frame, one curved step moves the chart position by at
    most 2800/3: the elapsed time is capped at 1/30 and the divisor at
    1e-4. *)
Theorem curved_step_cap
  (manifold : string) (camDir : Vec3) (dt : R) (st : Player) :
  0 <= dt ->
  V2.length (fst (chartDisplacement (selectLambda manifold (chart st))
                    (keys st) camDir (clampDt dt)))
  <= 2800 / 3.
Proof.
  intros Hdt.
  pose proof (clampDt_nonneg dt Hdt) as H0.
  pose proof (clampDt_le dt) as H1.
  destruct (want_zero_or_not (keys st)) as [[F S]|Hw].
  - rewrite (chartDisplacement_zero _ _ _ _ F S). simpl fst.
    rewrite V2_length_zero. lra.
  - rewrite (chartDisplacement_length _ _ _ _ Hw H0).
    pose proof (step_scale_bound (selectLambda manifold (chart st))
                  (clampDt dt) H0). lra.
Qed.

Lemma curved_step_cap_witness :
  0 <= 5
  /\ V2.length (fst (chartDisplacement (selectLambda "saddle" (chart pressW))
                       (keys pressW) camForward (clampDt 5)))
     <= 2800 / 3.
Proof.
  assert (Hdt : 0 <= 5) by lra.
  split; [exact Hdt|].
  exact (curved_step_cap "saddle" camForward 5 pressW Hdt).
Defined.

Lemma stereoToSphere_unit (c : Vec2) : V3.lengthSq (stereoToSphere c) = 1.
Proof.
  destruct c as [u v].
  unfold V3.lengthSq, V3.dot, stereoToSphere; simpl.
  pose proof (r2_plus_1_pos u v) as Hpos.
  field. lra.
Qed.

Lemma stepRiemann_result (manifold : string) (camDir : Vec3) (dt : R)
  (st : Player) (p0 : Vec3) :
  obj st = Some p0 ->
  let st' := fst (stepRiemann manifold camDir dt st) in
  obj st' = Some (selectEmbed manifold (chart st'))
  /\ keys st' = keys st
  /\ exists y,
       snd (stepRiemann manifold camDir dt st)
       = Some (mkPose (selectEmbed manifold (chart st')) y).
Proof.
  intros Ho. unfold stepRiemann. rewrite Ho.
  destruct (chartDisplacement _ _ _ _) as [du y]. simpl.
  split; [reflexivity|]. split; [reflexivity|]. eexists. reflexivity.
Qed.

(** After a curved step the player sits on the surface: on the sphere the
    position has norm 1, on the saddle its x and y are the new chart
    position and its height is 0.15 (x^2 - y^2); the pose handed out holds
    the same point. *)
Theorem curved_step_on_surface
  (md manifold : string) (camDir : Vec3) (dt : R) (st : Player) (p0 : Vec3) :
  String.eqb md "euclid" = false ->
  obj st = Some p0 ->
  let r := useFrame md manifold camDir dt st in
  exists p y, obj (fst r) = Some p /\ snd r = Some (mkPose p y)
    /\ (manifold = "sphere" -> V3.length p = 1)
    /\ (manifold = "saddle" ->
        v3x p = v2x (chart (fst r)) /\ v3y p = v2y (chart (fst r))
        /\ v3z p = (v3x p * v3x p - v3y p * v3y p) * (15 / 100)).
Proof.
  intros Hmd Ho r. unfold r, useFrame. rewrite Hmd.
  destruct (stepRiemann_result manifold camDir (clampDt dt) st p0 Ho)
    as (H1 & _ & y & H3).
  eexists. exists y. split; [exact H1|]. split; [exact H3|]. split.
  - intros ->. apply V3_length_of_lengthSq.
    change (selectEmbed "sphere" ?c) with (stereoToSphere c).
    apply stereoToSphere_unit.
  - intros ->. change (selectEmbed "saddle" ?c) with (saddleEmbed c).
    unfold saddleEmbed, saddleEmbed_k. simpl. repeat split.
Qed.

Lemma curved_step_on_surface_witness :
  String.eqb "riemann" "euclid" = false
  /\ obj pressW = Some (mkVec3 0 (12 / 10) 4)
  /\ exists p y,
       obj (fst (useFrame "riemann" "sphere" camForward (1 / 10) pressW))
       = Some p
       /\ snd (useFrame "riemann" "sphere" camForward (1 / 10) pressW)
          = Some (mkPose p y)
       /\ V3.length p = 1.
Proof.
  split; [reflexivity|]. split; [reflexivity|].
  destruct (curved_step_on_surface "riemann" "sphere" camForward (1 / 10)
              pressW (mkVec3 0 (12 / 10) 4) eq_refl eq_refl)
    as (p & y & H1 & H2 & H3 & _).
  exists p, y. split; [exact H1|]. split; [exact H2|]. exact (H3 eq_refl).
Defined.

(** The displacement of a step, in closed form: the input (strafe, forward)
    scaled to unit length, turned by the yaw, times the step length.  With W
    alone the chart moves along (-sin yaw, cos yaw), with D alone along
    (cos yaw, sin yaw); the second normalization of the source never changes
    the vector. *)
Theorem chartDisplacement_direction
  (lam : R) (k : Keys) (camDir : Vec3) (dt : R) :
  forwardOf k <> 0 \/ strafeOf k <> 0 ->
  let yw := atan2 (v3x camDir) (v3z camDir) in
  let w := sqrt (strafeOf k * strafeOf k + forwardOf k * forwardOf k) in
  let c := speed / Rmax lam (1 / 10000) * dt in
  chartDisplacement lam k camDir dt
  = (mkVec2 ((cos yw * strafeOf k - sin yw * forwardOf k) / w * c)
            ((sin yw * strafeOf k + cos yw * forwardOf k) / w * c),
     yw).
Proof.
  intros Hin yw w c.
  pose proof (want_nonzero k Hin) as Hw.
  unfold chartDisplacement.
  destruct (Rlt_dec 0 (V2.lengthSq (mkVec2 (strafeOf k) (forwardOf k))))
    as [_|C]; [|contradiction].
  cbv zeta. fold yw.
  rewrite V2_normalize_unit
    by (rewrite localToWorld_lengthSq; apply V2_lengthSq_normalize, Hw).
  unfold V2.normalize, V2.divideScalar. rewrite (V2_lengthOr1_pos _ Hw).
  change (V2.lengthSq (mkVec2 (strafeOf k) (forwardOf k)))
    with (strafeOf k * strafeOf k + forwardOf k * forwardOf k) in *.
  fold w. fold c.
  assert (Hw0 : 0 < w) by (apply sqrt_lt_R0, Hw).
  unfold V2.multiplyScalar, V3.applyMatrix3, localToWorld; simpl.
  f_equal. f_equal; field; lra.
Qed.

Lemma chartDisplacement_direction_witness :
  (forwardOf (keys pressW) <> 0 \/ strafeOf (keys pressW) <> 0)
  /\ snd (chartDisplacement 2 (keys pressW) camForward (1 / 30))
     = atan2 (v3x camForward) (v3z camForward).
Proof.
  assert (Hin : forwardOf (keys pressW) <> 0 \/ strafeOf (keys pressW) <> 0)
    by (left; rewrite pressW_forward; lra).
  split; [exact Hin|].
  rewrite (chartDisplacement_direction 2 (keys pressW) camForward (1 / 30) Hin).
  reflexivity.
Defined.

(** ** Further theorems: the flat stepper *)

(** The horizontal camera direction is a unit vector of the ground plane
    unless the camera looks straight up or down, and then it is zero. *)
Lemma flatDir_cases (camDir : Vec3) :
  v3y (flatDir camDir) = 0
  /\ ((v3x camDir = 0 /\ v3z camDir = 0 ->
       v3x (flatDir camDir) = 0 /\ v3z (flatDir camDir) = 0)
      /\ (v3x camDir <> 0 \/ v3z camDir <> 0 ->
          v3x (flatDir camDir) * v3x (flatDir camDir)
          + v3z (flatDir camDir) * v3z (flatDir camDir) = 1)).
Proof.
  unfold flatDir. set (h := mkVec3 (v3x camDir) 0 (v3z camDir)).
  split; [|split].
  - unfold V3.normalize, V3.divideScalar, V3.multiplyScalar, h; simpl. ring.
  - intros [Hx Hz].
    unfold V3.normalize, V3.divideScalar, V3.multiplyScalar, h; simpl.
    rewrite Hx, Hz. split; ring.
  - intros Hn.
    assert (Hpos : 0 < V3.lengthSq h).
    { unfold V3.lengthSq, V3.dot, h; simpl. destruct Hn; nra. }
    pose proof (V3_lengthSq_normalize h Hpos) as Hu.
    assert (Hy : v3y (V3.normalize h) = 0)
      by (unfold V3.normalize, V3.divideScalar, V3.multiplyScalar, h;
          simpl; ring).
    unfold V3.lengthSq, V3.dot in Hu. rewrite Hy in Hu. lra.
Qed.

(** The movement vector before it is scaled: forward * dir + strafe * right
    with right = (dir.z, 0, -dir.x). *)
Lemma flatMove_raw (k : Keys) (camDir : Vec3) :
  let dir := flatDir camDir in
  let m := V3.addScaledVector
             (V3.addScaledVector V3.zero dir (forwardOf k))
             (V3.negate (V3.crossVectors dir (mkVec3 0 1 0))) (strafeOf k) in
  v3y m = 0
  /\ V3.lengthSq m
     = (forwardOf k * forwardOf k + strafeOf k * strafeOf k)
       * (v3x dir * v3x dir + v3z dir * v3z dir).
Proof.
  intros dir m. destruct (flatDir_cases camDir) as (Hy & _).
  fold dir in Hy. clearbody dir.
  assert (Hm : v3y m = 0).
  { unfold m, V3.addScaledVector, V3.negate, V3.crossVectors, V3.zero; simpl.
    rewrite Hy. ring. }
  split; [exact Hm|].
  unfold V3.lengthSq, V3.dot. rewrite Hm.
  unfold m, V3.addScaledVector, V3.negate, V3.crossVectors, V3.zero; simpl.
  rewrite Hy. ring.
Qed.

Lemma flatMove_speed (k : Keys) (camDir : Vec3) :
  let mv := flatMove k camDir in
  v3y mv = 0
  /\ ((v3x camDir = 0 /\ v3z camDir = 0) ->
      v3x mv = 0 /\ v3z mv = 0)
  /\ (v3x camDir <> 0 \/ v3z camDir <> 0 ->
      forwardOf k <> 0 \/ strafeOf k <> 0 ->
      v3x mv * v3x mv + v3z mv * v3z mv = speed * speed).
Proof.
  intros mv. unfold mv, flatMove. cbv zeta.
  destruct (flatMove_raw k camDir) as (Hy & Hl). cbv zeta in Hy, Hl.
  destruct (flatDir_cases camDir) as (_ & Hzero & Hunit).
  set (m := V3.addScaledVector _ _ (strafeOf k)) in *.
  destruct (Rlt_dec 0 (V3.lengthSq m)) as [L|L].
  - pose proof (V3_lengthSq_normalize m L) as Hu.
    assert (Hny : v3y (V3.normalize m) = 0).
    { unfold V3.normalize, V3.divideScalar, V3.multiplyScalar.
      cbn [v3x v3y v3z]. rewrite Hy. ring. }
    split; [unfold V3.multiplyScalar; cbn [v3x v3y v3z]; rewrite Hny; ring|].
    split.
    + intros Hc. destruct (Hzero Hc) as [Hx Hz].
      rewrite Hx, Hz in Hl. lra.
    + intros _ _. unfold V3.lengthSq, V3.dot in Hu. rewrite Hny in Hu.
      unfold V3.multiplyScalar; cbn [v3x v3y v3z]. nra.
  - split; [exact Hy|]. split.
    + intros Hc. destruct (Hzero Hc) as [Hx Hz].
      unfold m, V3.addScaledVector, V3.negate, V3.crossVectors, V3.zero.
      cbn [v3x v3y v3z]. rewrite Hx, Hz. split; ring.
    + intros Hc Hin. exfalso. apply L. rewrite Hl, (Hunit Hc).
      pose proof (want_nonzero k Hin) as Hw.
      unfold V2.lengthSq in Hw; simpl in Hw. lra.
Qed.

(** What every flat step does in the ground plane. *)
Lemma stepEuclid_horizontal (camDir : Vec3) (dt : R) (st : Player)
  (p0 : Vec3) :
  obj st = Some p0 ->
  let st' := fst (stepEuclid camDir dt st) in
  let mv := flatMove (keys st) camDir in
  exists p1, obj st' = Some p1
    /\ v3x p1 = v3x p0 + v3x mv * dt /\ v3z p1 = v3z p0 + v3z mv * dt
    /\ v3x (vel st') = v3x mv /\ v3z (vel st') = v3z mv
    /\ keys st' = keys st.
Proof.
  intros Ho st' mv. unfold st'.
  destruct (stepEuclid_obj camDir dt st p0 Ho) as [Hlt Hge].
  destruct (Rlt_dec (v3y p0 + flatVy st dt * dt) 1) as [L|L].
  - rewrite (Hlt L). eexists. split; [reflexivity|]. simpl. repeat split.
  - rewrite (Hge L). eexists. split; [reflexivity|]. simpl. repeat split.
Qed.

(** Flat mode moves at the constant horizontal speed 2.8, diagonals
    included: with some direction key effective and the camera not looking
    straight up or down, the horizontal velocity has length speed and the
    step covers the horizontal distance speed * dt. *)
Theorem flat_step_horizontal_speed
  (md manifold : string) (camDir : Vec3) (dt : R) (st : Player) (p0 : Vec3) :
  String.eqb md "euclid" = true ->
  obj st = Some p0 ->
  v3x camDir <> 0 \/ v3z camDir <> 0 ->
  forwardOf (keys st) <> 0 \/ strafeOf (keys st) <> 0 ->
  let st' := fst (useFrame md manifold camDir dt st) in
  exists p1, obj st' = Some p1
    /\ v3x (vel st') * v3x (vel st') + v3z (vel st') * v3z (vel st')
       = speed * speed
    /\ (v3x p1 - v3x p0) * (v3x p1 - v3x p0)
       + (v3z p1 - v3z p0) * (v3z p1 - v3z p0)
       = (speed * clampDt dt) * (speed * clampDt dt).
Proof.
  intros Hmd Ho Hc Hin st'. unfold st', useFrame. rewrite Hmd.
  destruct (stepEuclid_horizontal camDir (clampDt dt) st p0 Ho)
    as (p1 & H1 & Hx & Hz & Hvx & Hvz & _).
  destruct (flatMove_speed (keys st) camDir) as (_ & _ & Hs).
  specialize (Hs Hc Hin). cbv zeta in Hs.
  exists p1. split; [exact H1|]. split.
  - rewrite Hvx, Hvz. exact Hs.
  - rewrite Hx, Hz.
    set (mx := v3x (flatMove (keys st) camDir)) in *.
    set (mz := v3z (flatMove (keys st) camDir)) in *.
    replace ((v3x p0 + mx * clampDt dt - v3x p0)
             * (v3x p0 + mx * clampDt dt - v3x p0)
             + (v3z p0 + mz * clampDt dt - v3z p0)
               * (v3z p0 + mz * clampDt dt - v3z p0))
      with ((mx * mx + mz * mz) * (clampDt dt * clampDt dt)) by ring.
    rewrite Hs. ring.
Qed.

Lemma flat_step_horizontal_speed_witness :
  String.eqb "euclid" "euclid" = true
  /\ obj pressW = Some (mkVec3 0 (12 / 10) 4)
  /\ (v3x camForward <> 0 \/ v3z camForward <> 0)
  /\ (forwardOf (keys pressW) <> 0 \/ strafeOf (keys pressW) <> 0)
  /\ exists p1,
       obj (fst (useFrame "euclid" "sphere" camForward (1 / 60) pressW))
       = Some p1
       /\ (v3x p1 - 0) * (v3x p1 - 0) + (v3z p1 - 4) * (v3z p1 - 4)
          = (speed * clampDt (1 / 60)) * (speed * clampDt (1 / 60)).
Proof.
  assert (Hc : v3x camForward <> 0 \/ v3z camForward <> 0)
    by (right; simpl; lra).
  assert (Hin : forwardOf (keys pressW) <> 0 \/ strafeOf (keys pressW) <> 0)
    by (left; rewrite pressW_forward; lra).
  split; [reflexivity|]. split; [reflexivity|].
  split; [exact Hc|]. split; [exact Hin|].
  destruct (flat_step_horizontal_speed "euclid" "sphere" camForward (1 / 60)
              pressW (mkVec3 0 (12 / 10) 4) eq_refl eq_refl Hc Hin)
    as (p1 & H1 & _ & H3).
  exists p1. split; [exact H1 | exact H3].
Defined.

(** With the camera looking straight up or down there is no horizontal
    direction: whatever keys are held, a flat step leaves x and z where they
    were and the horizontal velocity is zero. *)
Theorem flat_step_vertical_camera
  (md manifold : string) (camDir : Vec3) (dt : R) (st : Player) (p0 : Vec3) :
  String.eqb md "euclid" = true ->
  obj st = Some p0 ->
  v3x camDir = 0 -> v3z camDir = 0 ->
  let st' := fst (useFrame md manifold camDir dt st) in
  exists p1, obj st' = Some p1
    /\ v3x p1 = v3x p0 /\ v3z p1 = v3z p0
    /\ v3x (vel st') = 0 /\ v3z (vel st') = 0.
Proof.
  intros Hmd Ho Hx Hz st'. unfold st', useFrame. rewrite Hmd.
  destruct (stepEuclid_horizontal camDir (clampDt dt) st p0 Ho)
    as (p1 & H1 & Hpx & Hpz & Hvx & Hvz & _).
  destruct (flatMove_speed (keys st) camDir) as (_ & H0 & _).
  destruct (H0 (conj Hx Hz)) as [Mx Mz].
  exists p1. split; [exact H1|].
  rewrite Hpx, Hpz, Hvx, Hvz, Mx, Mz. repeat split; ring.
Qed.

Lemma flat_step_vertical_camera_witness :
  String.eqb "euclid" "euclid" = true
  /\ obj pressW = Some (mkVec3 0 (12 / 10) 4)
  /\ v3x (mkVec3 0 (-1) 0) = 0 /\ v3z (mkVec3 0 (-1) 0) = 0
  /\ exists p1,
       obj (fst (useFrame "euclid" "sphere" (mkVec3 0 (-1) 0) (1 / 60) pressW))
       = Some p1
       /\ v3x p1 = 0 /\ v3z p1 = 4.
Proof.
  split; [reflexivity|]. split; [reflexivity|].
  split; [reflexivity|]. split; [reflexivity|].
  destruct (flat_step_vertical_camera "euclid" "sphere" (mkVec3 0 (-1) 0)
              (1 / 60) pressW (mkVec3 0 (12 / 10) 4)
              eq_refl eq_refl eq_refl eq_refl)
    as (p1 & H1 & Hx & Hz & _).
  exists p1. split; [exact H1|]. split; assumption.
Defined.

(** A jump requested on the ground takes effect in that very step: the
    vertical velocity becomes the jump speed, the grounded flag drops, and
    the player rises by jumpSpeed * dt. *)
Theorem jump_impulse
  (md manifold : string) (camDir : Vec3) (dt : R) (st : Player) (p0 : Vec3) :
  String.eqb md "euclid" = true ->
  obj st = Some p0 ->
  keys st "Space" = true -> onGround st = true ->
  1 <= v3y p0 -> 0 <= dt ->
  let st' := fst (useFrame md manifold camDir dt st) in
  exists p1, obj st' = Some p1
    /\ v3y p1 = v3y p0 + jumpSpeed * clampDt dt
    /\ v3y (vel st') = jumpSpeed
    /\ onGround st' = false.
Proof.
  intros Hmd Ho Hsp Hog Hy Hdt st'. unfold st', useFrame. rewrite Hmd.
  pose proof (clampDt_nonneg dt Hdt) as H0.
  destruct (stepEuclid_obj camDir (clampDt dt) st p0 Ho) as [_ Hge].
  assert (Hv : flatVy st (clampDt dt) = jumpSpeed)
    by (unfold flatVy; rewrite Hsp, Hog; reflexivity).
  rewrite Hv in Hge. rewrite Hsp, Hog in Hge.
  rewrite Hge by (unfold jumpSpeed; nra).
  eexists. split; [reflexivity|]. simpl. repeat split.
Qed.

Lemma jump_impulse_witness :
  String.eqb "euclid" "euclid" = true
  /\ obj (keydown "Space" landed) = Some (mkVec3 0 1 4)
  /\ keys (keydown "Space" landed) "Space" = true
  /\ onGround (keydown "Space" landed) = true
  /\ 1 <= v3y (mkVec3 0 1 4) /\ 0 <= 1 / 60
  /\ exists p1,
       obj (fst (useFrame "euclid" "sphere" camForward (1 / 60)
                   (keydown "Space" landed))) = Some p1
       /\ v3y p1 = 1 + jumpSpeed * clampDt (1 / 60)
       /\ onGround (fst (useFrame "euclid" "sphere" camForward (1 / 60)
                           (keydown "Space" landed))) = false.
Proof.
  assert (Hy : 1 <= v3y (mkVec3 0 1 4)) by (simpl; lra).
  assert (Hdt : 0 <= 1 / 60) by lra.
  split; [reflexivity|]. split; [reflexivity|]. split; [reflexivity|].
  split; [reflexivity|]. split; [exact Hy|]. split; [exact Hdt|].
  destruct (jump_impulse "euclid" "sphere" camForward (1 / 60)
              (keydown "Space" landed) (mkVec3 0 1 4)
              eq_refl eq_refl eq_refl eq_refl Hy Hdt)
    as (p1 & H1 & H2 & _ & H4).
  exists p1. split; [exact H1|]. split; [exact H2 | exact H4].
Defined.

(** No jump in the air: while the grounded flag is down, holding Space
    changes nothing; the step gives the position, velocity and flag it gives
    with Space released. *)
Theorem airborne_ignores_space
  (md manifold : string) (camDir : Vec3) (dt : R) (st : Player) :
  String.eqb md "euclid" = true ->
  onGround st = false ->
  let a := fst (useFrame md manifold camDir dt st) in
  let b := fst (useFrame md manifold camDir dt (keyup "Space" st)) in
  obj a = obj b /\ vel a = vel b /\ onGround a = onGround b
  /\ chart a = chart b.
Proof.
  intros Hmd Hog a b. unfold a, b, useFrame. rewrite Hmd.
  unfold stepEuclid.
  change (obj (keyup "Space" st)) with (obj st).
  destruct (obj st) as [p0|]; [|repeat split].
  assert (Hk : flatMove (keys (keyup "Space" st)) camDir
               = flatMove (keys st) camDir) by reflexivity.
  assert (Hv : flatVy (keyup "Space" st) (clampDt dt)
               = flatVy st (clampDt dt)).
  { unfold flatVy. change (onGround (keyup "Space" st)) with (onGround st).
    rewrite Hog, !andb_false_r. reflexivity. }
  cbv zeta. rewrite Hk, Hv.
  change (onGround (keyup "Space" st)) with (onGround st).
  change (chart (keyup "Space" st)) with (chart st).
  rewrite Hog, !andb_false_r.
  destruct (Rlt_dec (v3y p0 + flatVy st (clampDt dt) * clampDt dt) 1);
    repeat split.
Qed.

Lemma airborne_ignores_space_witness :
  String.eqb "euclid" "euclid" = true
  /\ onGround (mkPlayer (Some (mkVec3 0 2 4)) (mkVec3 0 1 0) (mkVec2 0 0)
                        false (fun _ => true)) = false
  /\ vel (fst (useFrame "euclid" "sphere" camForward (1 / 60)
                 (mkPlayer (Some (mkVec3 0 2 4)) (mkVec3 0 1 0) (mkVec2 0 0)
                           false (fun _ => true))))
     = vel (fst (useFrame "euclid" "sphere" camForward (1 / 60)
                   (keyup "Space"
                      (mkPlayer (Some (mkVec3 0 2 4)) (mkVec3 0 1 0)
                                (mkVec2 0 0) false (fun _ => true))))).
Proof.
  split; [reflexivity|]. split; [reflexivity|].
  exact (proj1 (proj2 (airborne_ignores_space "euclid" "sphere" camForward
                         (1 / 60)
                         (mkPlayer (Some (mkVec3 0 2 4)) (mkVec3 0 1 0)
                                   (mkVec2 0 0) false (fun _ => true))
                         eq_refl eq_refl))).
Defined.

(** *** Resting and landing *)

Lemma atRest_step (manifold : string) (camDir : Vec3) (dt : R) (st : Player) :
  atRest st -> 0 <= dt ->
  atRest (fst (useFrame "euclid" manifold camDir dt st)).
Proof.
  intros (p & Ho & Hy & Hv & Hg & Hs) Hdt.
  pose proof (clampDt_nonneg dt Hdt) as H0.
  unfold useFrame. change (String.eqb "euclid" "euclid") with true. cbv iota.
  destruct (stepEuclid_obj camDir (clampDt dt) st p Ho) as [Hlt Hge].
  assert (Hvy : flatVy st (clampDt dt) = gravity * clampDt dt).
  { unfold flatVy. rewrite Hs, Hv. simpl. ring. }
  rewrite Hvy, Hy in Hlt, Hge. rewrite Hs in Hge. simpl andb in Hge.
  cbv iota in Hge. rewrite Hg in Hge.
  destruct (Rlt_dec (1 + gravity * clampDt dt * clampDt dt) 1) as [L|L].
  - rewrite (Hlt L). eexists. simpl. repeat split. exact Hs.
  - rewrite (Hge L).
    assert (Hz : clampDt dt = 0) by (unfold gravity in L; nra).
    eexists. simpl. split; [reflexivity|].
    rewrite Hz. repeat split; try (simpl; ring). exact Hs.
Qed.

Lemma atRest_run (manifold : string) (fs : list (Vec3 * R)) (st : Player) :
  atRest st ->
  (forall f, In f fs -> 0 <= snd f) ->
  atRest (runFrames "euclid" manifold fs st).
Proof.
  revert st. induction fs as [|[camDir dt] fs IH]; intros st Hr Hdt.
  - exact Hr.
  - simpl. apply IH.
    + apply atRest_step; [exact Hr|]. apply (Hdt (camDir, dt)). left. reflexivity.
    + intros f Hf. apply Hdt. right. exact Hf.
Qed.

(** Standing is stable: a player at rest on the ground plane with no jump
    requested is still at rest (height 1, no vertical velocity, grounded)
    after any run of flat frames. *)
Theorem atRest_stable (manifold : string) (fs : list (Vec3 * R))
  (st : Player) :
  atRest st ->
  (forall f, In f fs -> 0 <= snd f) ->
  atRest (runFrames "euclid" manifold fs st).
Proof. apply atRest_run. Qed.

Lemma atRest_stable_witness :
  atRest landed
  /\ (forall f, In f [(camForward, 1 / 60); (camForward, 1 / 10)] ->
                0 <= snd f)
  /\ atRest (runFrames "euclid" "sphere"
               [(camForward, 1 / 60); (camForward, 1 / 10)] landed).
Proof.
  assert (Hr : atRest landed).
  { exists (mkVec3 0 1 4). repeat split. }
  assert (Hd : forall f, In f [(camForward, 1 / 60); (camForward, 1 / 10)] ->
                         0 <= snd f).
  { intros f [<-|[<-|[]]]; simpl; lra. }
  split; [exact Hr|]. split; [exact Hd|].
  exact (atRest_stable "sphere" _ landed Hr Hd).
Defined.

Lemma runFrames_app (md manifold : string) (l1 l2 : list (Vec3 * R))
  (st : Player) :
  runFrames md manifold (l1 ++ l2) st
  = runFrames md manifold l2 (runFrames md manifold l1 st).
Proof.
  revert st. induction l1 as [|[c d] l1 IH]; intros st; simpl.
  - reflexivity.
  - apply IH.
Qed.

Lemma clampDt_pos (dt : R) : 0 < dt -> 0 < clampDt dt.
Proof. intros H. unfold clampDt. apply Rmin_glb_lt; lra. Qed.

(** One flat frame without a jump: the player lands, or is still at or
    above the ground plane after a free-fall step. *)
Lemma fall_step (manifold : string) (camDir : Vec3) (dt : R) (st : Player)
  (p : Vec3) :
  obj st = Some p -> keys st "Space" = false ->
  let st' := fst (useFrame "euclid" manifold camDir dt st) in
  atRest st'
  \/ exists p', obj st' = Some p'
       /\ v3y p' = v3y p + (v3y (vel st) + gravity * clampDt dt) * clampDt dt
       /\ 1 <= v3y p'
       /\ v3y (vel st') = v3y (vel st) + gravity * clampDt dt
       /\ keys st' "Space" = false.
Proof.
  intros Ho Hs st'. unfold st', useFrame.
  change (String.eqb "euclid" "euclid") with true. cbv iota.
  destruct (stepEuclid_obj camDir (clampDt dt) st p Ho) as [Hlt Hge].
  assert (Hvy : flatVy st (clampDt dt)
                = v3y (vel st) + gravity * clampDt dt).
  { unfold flatVy. rewrite Hs. reflexivity. }
  rewrite Hvy in Hlt, Hge.
  destruct (Rlt_dec (v3y p + (v3y (vel st) + gravity * clampDt dt)
                             * clampDt dt) 1) as [L|L].
  - left. rewrite (Hlt L). eexists. simpl. repeat split. exact Hs.
  - right. rewrite (Hge L). eexists. cbn [fst obj vel keys v3y].
    split; [reflexivity|]. cbn [v3y].
    split; [reflexivity|]. split; [apply Rnot_lt_le, L|].
    split; [reflexivity | exact Hs].
Qed.

(** A run of equal frames without a jump: the player has landed by then, or
    has followed the free-fall law all along. *)
Lemma fall_run (manifold : string) (camDir : Vec3) (dt : R) (n : nat) :
  forall (st : Player) (p : Vec3),
  obj st = Some p -> keys st "Space" = false ->
  (exists m, (m <= n)%nat
     /\ atRest (runFrames "euclid" manifold (sameFrames camDir dt m) st))
  \/ exists p',
       obj (runFrames "euclid" manifold (sameFrames camDir dt n) st) = Some p'
       /\ v3y p' = v3y p + INR n * clampDt dt * v3y (vel st)
                   + gravity * clampDt dt * clampDt dt
                     * (INR n * (INR n + 1) / 2)
       /\ ((1 <= n)%nat -> 1 <= v3y p').
Proof.
  induction n as [|n IH]; intros st p Ho Hs.
  - right. exists p. simpl. split; [exact Ho|]. split; [lra | lia].
  - destruct (fall_step manifold camDir dt st p Ho Hs)
      as [Hr | (p1 & Ho1 & Hy1 & Hge1 & Hv1 & Hs1)].
    + left. exists 1%nat. split; [lia | exact Hr].
    + destruct (IH _ p1 Ho1 Hs1) as [(m & Hm & Hr) | (p' & Ho' & Hy' & Hge')].
      * left. exists (S m). split; [lia | exact Hr].
      * right. exists p'. split; [exact Ho'|]. split.
        -- rewrite Hy', Hy1, Hv1, S_INR. field.
        -- intros _. destruct n as [|n]; [|apply Hge'; lia].
           simpl in Ho'. rewrite Ho1 in Ho'. injection Ho' as <-. exact Hge1.
Qed.

(** The free-fall height drops below the ground plane for a frame count
    large enough. *)
Lemma fall_bound (y vy D : R) :
  0 < D ->
  exists n, (1 <= n)%nat
    /\ y + INR n * D * vy + gravity * D * D * (INR n * (INR n + 1) / 2) < 1.
Proof.
  intros HD.
  set (a := 49 / 10 * D * D).
  assert (Ha : 0 < a) by (unfold a; nra).
  set (B := Rabs (y - 1) + D * Rabs vy).
  assert (HB : 0 <= B).
  { unfold B. pose proof (Rabs_pos (y - 1)). pose proof (Rabs_pos vy). nra. }
  destruct (INR_unbounded (B / a + 1)) as [n Hn].
  assert (HaN : a * INR n > B + a).
  { assert (E : a * (B / a + 1) = B + a) by (field; lra).
    rewrite <- E. apply Rmult_lt_compat_l; lra. }
  assert (HN1 : 1 <= INR n).
  { assert (0 <= B / a) by (apply Rmult_le_pos; [lra|];
                            apply Rlt_le, Rinv_0_lt_compat, Ha).
    lra. }
  exists n. split.
  - destruct n as [|n]; [simpl in HN1; lra | lia].
  - pose proof (Rle_abs (y - 1)) as A1. pose proof (Rle_abs vy) as A2.
    pose proof (Rabs_pos (y - 1)) as P1. pose proof (Rabs_pos vy) as P2.
    assert (Hq : a * INR n * INR n > B * INR n)
      by (apply Rmult_gt_compat_r; lra).
    assert (H1 : Rabs (y - 1) <= Rabs (y - 1) * INR n) by nra.
    assert (H2 : INR n * D * vy <= INR n * D * Rabs vy).
    { apply Rmult_le_compat_l; [|exact A2]. apply Rmult_le_pos; lra. }
    replace (gravity * D * D * (INR n * (INR n + 1) / 2))
      with (- (a * INR n * INR n) - a * INR n)
      by (unfold gravity, a; field).
    unfold B in Hq. nra.
Qed.

(** Landing: with no jump requested and frames of a fixed positive length,
    the player comes to rest on the ground plane after finitely many flat
    frames, from any height and vertical velocity, and stays at rest from
    then on. *)
Theorem eventually_at_rest
  (manifold : string) (camDir : Vec3) (dt : R) (st : Player) (p0 : Vec3) :
  obj st = Some p0 ->
  keys st "Space" = false ->
  0 < dt ->
  exists n0, forall n, (n0 <= n)%nat ->
    atRest (runFrames "euclid" manifold (sameFrames camDir dt n) st).
Proof.
  intros Ho Hs Hdt.
  destruct (fall_bound (v3y p0) (v3y (vel st)) (clampDt dt)
              (clampDt_pos dt Hdt)) as (n & Hn1 & Hlow).
  destruct (fall_run manifold camDir dt n st p0 Ho Hs)
    as [(m & _ & Hr) | (p' & _ & Hy & Hge)].
  - exists m. intros k Hk.
    replace k with (m + (k - m))%nat by lia.
    unfold sameFrames. rewrite repeat_app, runFrames_app.
    apply atRest_run; [exact Hr|].
    intros f Hf. apply repeat_spec in Hf. subst f. simpl. lra.
  - specialize (Hge Hn1). lra.
Qed.

Lemma eventually_at_rest_witness :
  obj mounted = Some (mkVec3 0 (12 / 10) 4)
  /\ keys mounted "Space" = false
  /\ 0 < 1 / 30
  /\ exists n0, forall n, (n0 <= n)%nat ->
       atRest (runFrames "euclid" "sphere"
                 (sameFrames camForward (1 / 30) n) mounted).
Proof.
  assert (Hdt : 0 < 1 / 30) by lra.
  split; [reflexivity|]. split; [reflexivity|]. split; [exact Hdt|].
  exact (eventually_at_rest "sphere" camForward (1 / 30) mounted
           (mkVec3 0 (12 / 10) 4) eq_refl eq_refl Hdt).
Defined.

(** ** Further theorems: keys and yaw *)

(** Opposite keys cancel: with W and S both held the forward input is 0,
    and it is 1 again once S is released; the same for D and A, whatever
    else was held before.  The handlers touch nothing but the key map. *)
Theorem opposite_keys_cancel (st : Player) :
  forwardOf (keys (keydown "KeyS" (keydown "KeyW" st))) = 0
  /\ forwardOf (keys (keyup "KeyS" (keydown "KeyS" (keydown "KeyW" st)))) = 1
  /\ strafeOf (keys (keydown "KeyA" (keydown "KeyD" st))) = 0
  /\ strafeOf (keys (keyup "KeyA" (keydown "KeyA" (keydown "KeyD" st)))) = 1
  /\ (forall c, obj (keydown c st) = obj st /\ vel (keydown c st) = vel st
                /\ chart (keydown c st) = chart st
                /\ onGround (keydown c st) = onGround st
                /\ obj (keyup c st) = obj st /\ vel (keyup c st) = vel st
                /\ chart (keyup c st) = chart st
                /\ onGround (keyup c st) = onGround st).
Proof.
  unfold forwardOf, strafeOf, axis. simpl.
  repeat split; lra.
Qed.

Lemma atan2_range (y x : R) : - PI <= atan2 y x <= PI.
Proof.
  pose proof PI_RGT_0 as Hpi.
  pose proof (atan_bound (y / x)) as [Hl Hu].
  unfold atan2.
  destruct (Rlt_dec 0 x) as [Hx|Hx]; [lra|].
  destruct (Rlt_dec x 0) as [Hx'|Hx'].
  - destruct (Rle_dec 0 y) as [Hy|Hy].
    + assert (Hq : y / x <= 0).
      { unfold Rdiv. pose proof (Rinv_lt_0_compat x Hx') as Hi. nra. }
      assert (Ha : atan (y / x) <= 0).
      { destruct Hq as [Hq|Hq].
        - apply Rlt_le. rewrite <- atan_0. apply atan_increasing, Hq.
        - rewrite Hq, atan_0. lra. }
      lra.
    + assert (Hq : 0 < y / x).
      { unfold Rdiv. replace (y * / x) with ((- y) * (- / x)) by ring.
        apply Rmult_lt_0_compat; [lra|].
        pose proof (Rinv_lt_0_compat x Hx'). lra. }
      assert (Ha : 0 < atan (y / x)).
      { rewrite <- atan_0. apply atan_increasing, Hq. }
      lra.
  - destruct (Rlt_dec 0 y); [lra|]. destruct (Rlt_dec y 0); lra.
Qed.

Lemma chartDisplacement_yaw (lam : R) (k : Keys) (camDir : Vec3) (dt : R) :
  snd (chartDisplacement lam k camDir dt) = atan2 (v3x camDir) (v3z camDir).
Proof.
  unfold chartDisplacement.
  destruct (Rlt_dec 0 (V2.lengthSq (mkVec2 (strafeOf k) (forwardOf k))));
    reflexivity.
Qed.

(** The yaw of every pose a frame hands out lies in the closed interval
    [-PI, PI], in either mode.  Both ends are kept: on a camera direction
    with x = -0 and z < 0 the source hands out -PI. *)
Theorem pose_yaw_range
  (md manifold : string) (camDir : Vec3) (dt : R) (st : Player) (q : Pose) :
  snd (useFrame md manifold camDir dt st) = Some q ->
  - PI <= yaw q <= PI.
Proof.
  pose proof atan2_range as G.
  unfold useFrame. destruct (String.eqb md "euclid").
  - unfold stepEuclid. destruct (obj st) as [p0|]; [|discriminate].
    cbv zeta.
    destruct (Rlt_dec (v3y p0 + flatVy st (clampDt dt) * clampDt dt) 1);
      intros E; injection E as <-; apply G.
  - unfold stepRiemann. destruct (obj st) as [p0|]; [|discriminate].
    pose proof (chartDisplacement_yaw (selectLambda manifold (chart st))
                  (keys st) camDir (clampDt dt)) as Hy.
    destruct (chartDisplacement _ _ _ _) as [du y]. simpl in Hy.
    intros E. injection E as <-. simpl. rewrite Hy. apply G.
Qed.

Lemma pose_yaw_range_witness :
  snd (useFrame "riemann" "sphere" camForward (1 / 10) pressW)
  = Some (mkPose (stereoToSphere (mkVec2 0 (7 / 150))) 0)
  /\ - PI <= yaw (mkPose (stereoToSphere (mkVec2 0 (7 / 150))) 0) <= PI.
Proof.
  assert (E : snd (useFrame "riemann" "sphere" camForward (1 / 10) pressW)
              = Some (mkPose (stereoToSphere (mkVec2 0 (7 / 150))) 0))
    by (rewrite scenario_step; reflexivity).
  split; [exact E|].
  exact (pose_yaw_range "riemann" "sphere" camForward (1 / 10) pressW _ E).
Defined.

(** ** Further theorems: the application *)

Lemma useFrame_pose (md manifold : string) (camDir : Vec3) (dt : R)
  (st : Player) (p0 : Vec3) :
  obj st = Some p0 ->
  exists q, snd (useFrame md manifold camDir dt st) = Some q
    /\ obj (fst (useFrame md manifold camDir dt st)) = Some (pos q).
Proof.
  intros Ho. unfold useFrame. destruct (String.eqb md "euclid").
  - destruct (stepEuclid_obj camDir (clampDt dt) st p0 Ho) as [Hlt Hge].
    destruct (Rlt_dec (v3y p0 + flatVy st (clampDt dt) * clampDt dt) 1)
      as [L|L].
    + rewrite (Hlt L). eexists. split; reflexivity.
    + rewrite (Hge L). eexists. split; reflexivity.
  - destruct (stepRiemann_result manifold camDir (clampDt dt) st p0 Ho)
      as (H1 & _ & y & H3).
    eexists. split; [exact H3 | exact H1].
Qed.

Lemma App_step_mounted (a : App) (e : Event) :
  (exists p, obj (player a) = Some p) ->
  exists p, obj (player (App_step a e)) = Some p.
Proof.
  intros (p & Hp). destruct e as [m now|m now|c|c|d dt]; simpl.
  - destruct (String.eqb m (mode a)); exists p; exact Hp.
  - destruct (String.eqb m (manifold a)); exists p; exact Hp.
  - exists p. exact Hp.
  - exists p. exact Hp.
  - destruct (useFrame_pose (playerMode a) (manifold a) d dt (player a) p Hp)
      as (q & _ & Hq).
    exists (pos q). exact Hq.
Qed.

Lemma App_run_mounted (es : list Event) (a : App) :
  (exists p, obj (player a) = Some p) ->
  exists p, obj (player (App_run a es)) = Some p.
Proof.
  revert a. induction es as [|e es IH]; intros a Ha; simpl.
  - exact Ha.
  - apply IH, App_step_mounted, Ha.
Qed.

(** Whatever events arrive after mounting, the player keeps a scene object,
    and every frame publishes the position it has just given that object:
    the pose of the application and the player never disagree after a
    frame. *)
Theorem App_pose_follows_player (now : R) (es : list Event)
  (camDir : Vec3) (dt : R) :
  let a := App_run (App_mount now) es in
  let a' := App_step a (Frame camDir dt) in
  (exists p, obj (player a) = Some p)
  /\ obj (player a') = Some (pos (appPose a'))
  /\ mode a' = mode a /\ manifold a' = manifold a
  /\ transitionTS a' = transitionTS a.
Proof.
  intros a a'.
  assert (Ha : exists p, obj (player a) = Some p).
  { apply App_run_mounted. eexists. reflexivity. }
  split; [exact Ha|]. split; [|repeat split].
  destruct Ha as (p & Hp).
  destruct (useFrame_pose (playerMode a) (manifold a) camDir dt (player a)
              p Hp) as (q & Hq1 & Hq2).
  unfold a'. simpl. rewrite Hq1. exact Hq2.
Qed.

Lemma GeodesicTracers_unit (ps : Pose) (rnd : nat -> Vec3 * R) :
  V3.lengthSq (pos ps) = 1 ->
  (forall i, V3.lengthSq (fst (rnd i)) = 1 /\ 0 <= snd (rnd i) < 1) ->
  exists sets,
    GeodesicTracers true "sphere" (Some ps) rnd = Some sets
    /\ List.length sets = 3%nat
    /\ forall pts g, In pts sets -> In g pts -> V3.length g = 1.
Proof.
  intros Hlen Hrnd. unfold GeodesicTracers.
  change (negb true || negb (String.eqb "sphere" "sphere")) with false.
  cbv iota zeta. eexists. split; [reflexivity|]. split.
  - rewrite length_map, length_combine, length_seq. reflexivity.
  - intros pts g Hin Hg. apply in_map_iff in Hin.
    destruct Hin as ([i off] & <- & _). cbn [fst snd] in Hg.
    destruct (Hrnd i) as [Hd Hr].
    rewrite (V3_normalize_unit _ Hlen) in Hg.
    exact (proj2 (makeGreatCircle_unit (rnd i) (pos ps) _ Hd Hr Hlen) g Hg).
Qed.

(** From a frame to the tracers: in the curved world on the sphere, the
    pose a frame publishes is a unit vector, so with the geodesics switched
    on the application draws three arcs whose points all have norm 1; in
    the flat world it draws none. *)
Theorem App_sphere_frame_tracers (now : R) (es : list Event)
  (camDir : Vec3) (dt : R) (rnd : nat -> Vec3 * R) :
  (forall i, V3.lengthSq (fst (rnd i)) = 1 /\ 0 <= snd (rnd i) < 1) ->
  let a := App_step (App_run (App_mount now) es) (Frame camDir dt) in
  (mode a = "euclid" -> forall sg, App_GeodesicTracers sg a rnd = None)
  /\ (mode a <> "euclid" -> manifold a = "sphere" ->
      V3.length (pos (appPose a)) = 1
      /\ exists sets, App_GeodesicTracers true a rnd = Some sets
           /\ List.length sets = 3%nat
           /\ forall pts g, In pts sets -> In g pts -> V3.length g = 1).
Proof.
  intros Hrnd a. split.
  - intros Hm sg. unfold App_GeodesicTracers. rewrite Hm.
    change (String.eqb "euclid" "euclid") with true.
    rewrite andb_false_r. unfold GeodesicTracers. reflexivity.
  - intros Hm Hs.
    set (a0 := App_run (App_mount now) es) in *.
    assert (Hm0 : String.eqb (mode a0) "euclid" = false)
      by (apply String.eqb_neq; exact Hm).
    assert (Hs0 : manifold a0 = "sphere") by exact Hs.
    destruct (App_run_mounted es (App_mount now)) as (p & Hp);
      [eexists; reflexivity|]. fold a0 in Hp.
    destruct (stepRiemann_result "sphere" camDir (clampDt dt) (player a0) p Hp)
      as (_ & _ & y & H3).
    assert (Hpose : appPose a
                    = mkPose (stereoToSphere
                                (chart (fst (stepRiemann "sphere" camDir
                                               (clampDt dt) (player a0))))) y).
    { unfold a. simpl. unfold playerMode, useFrame.
      rewrite Hm0. change (String.eqb "riemann" "euclid") with false.
      cbv iota. rewrite Hs0, H3. reflexivity. }
    assert (Hu : V3.lengthSq (pos (appPose a)) = 1)
      by (rewrite Hpose; apply stereoToSphere_unit).
    split; [apply V3_length_of_lengthSq, Hu|].
    unfold App_GeodesicTracers.
    assert (Hm1 : String.eqb (mode a) "euclid" = false) by exact Hm0.
    rewrite Hm1, Hs. change (true && negb false && String.eqb "sphere" "sphere")
      with true.
    apply GeodesicTracers_unit; assumption.
Qed.

Lemma App_sphere_frame_tracers_witness :
  (forall i, V3.lengthSq (fst (fixedDraw i)) = 1
             /\ 0 <= snd (fixedDraw i) < 1)
  /\ V3.length (pos (appPose afterOneCurvedFrame)) = 1.
Proof.
  assert (H : forall i, V3.lengthSq (fst (fixedDraw i)) = 1
                        /\ 0 <= snd (fixedDraw i) < 1).
  { intros i. unfold V3.lengthSq, V3.dot; simpl. split; [ring|lra]. }
  split; [exact H|].
  assert (Hm : mode afterOneCurvedFrame <> "euclid") by discriminate.
  exact (proj1 (proj2 (App_sphere_frame_tracers 0
                         [SetMode "riemann" 1; KeyDown "KeyW"]
                         camForward (1 / 10) fixedDraw H) Hm eq_refl)).
Defined.

(** ** Further theorems: the regular branch of the sampler *)

Lemma circle_point_lengthSq (p0 v : Vec3) (cs ss : R) :
  V3.lengthSq p0 = 1 -> V3.lengthSq v = 1 ->
  V3.lengthSq (V3.add (V3.multiplyScalar p0 cs) (V3.multiplyScalar v ss))
  = cs * cs + ss * ss + 2 * cs * ss * V3.dot p0 v.
Proof.
  intros Hp Hv. destruct p0 as [a b c], v as [d e f].
  unfold V3.lengthSq, V3.dot, V3.add, V3.multiplyScalar in *; simpl in *.
  replace ((a * cs + d * ss) * (a * cs + d * ss) +
           (b * cs + e * ss) * (b * cs + e * ss) +
           (c * cs + f * ss) * (c * cs + f * ss))
    with (cs * cs * (a * a + b * b + c * c) + ss * ss * (d * d + e * e + f * f)
          + 2 * cs * ss * (a * d + b * e + c * f)) by ring.
  rewrite Hp, Hv. ring.
Qed.

(** The projected direction is tangent to the sphere at the base point. *)
Lemma tangent_orthogonal (p0 dirFlat : Vec3) :
  V3.lengthSq p0 = 1 ->
  V3.dot p0 (V3.normalize
               (V3.sub dirFlat (V3.multiplyScalar p0 (V3.dot dirFlat p0))))
  = 0.
Proof.
  intros Hp.
  set (t := V3.sub dirFlat (V3.multiplyScalar p0 (V3.dot dirFlat p0))).
  assert (Ht : V3.dot p0 t = 0).
  { unfold t. destruct p0 as [a b c], dirFlat as [d e f].
    unfold V3.lengthSq, V3.dot, V3.sub, V3.multiplyScalar in *; simpl in *.
    replace (a * (d - a * (d * a + e * b + f * c))
             + b * (e - b * (d * a + e * b + f * c))
             + c * (f - c * (d * a + e * b + f * c)))
      with ((d * a + e * b + f * c) * (1 - (a * a + b * b + c * c))) by ring.
    rewrite Hp. ring. }
  unfold V3.normalize, V3.divideScalar.
  replace (V3.dot p0 (V3.multiplyScalar t (1 / V3.lengthOr1 t)))
    with (V3.dot p0 t * (1 / V3.lengthOr1 t))
    by (unfold V3.dot, V3.multiplyScalar; simpl; ring).
  rewrite Ht. ring.
Qed.

Lemma makeGreatCircle_nth (rnd : Vec3 * R) (p0 : Vec3) (yw : R) (i : nat)
  (d : Vec3) :
  (i <= N)%nat ->
  let dirFlat := mkVec3 (sin yw) 0 (cos yw) in
  let t := V3.sub dirFlat (V3.multiplyScalar p0 (V3.dot dirFlat p0)) in
  let t' := if Rlt_dec (V3.lengthSq t) (1 / 1000000)
            then V3.normalize
                   (V3.sub (fst rnd) (V3.multiplyScalar p0 (snd rnd)))
            else t in
  let s := (INR i / INR N - 5 / 10) * arc in
  nth i (makeGreatCircle rnd p0 yw) d
  = V3.normalize (V3.add (V3.multiplyScalar p0 (cos s))
                         (V3.multiplyScalar (V3.normalize t') (sin s))).
Proof.
  intros Hi dirFlat t t' s. unfold makeGreatCircle. cbv zeta.
  fold dirFlat. fold t. fold t'.
  set (f := fun i0 : nat => V3.normalize _).
  rewrite (nth_indep _ d (f 0%nat)) by (rewrite length_map, length_seq; lia).
  rewrite (map_nth f _ 0%nat i), seq_nth by lia.
  rewrite Nat.add_0_l. reflexivity.
Qed.

(** For a heading that is not radial at the base point, the samples lie on
    the great circle through the base point along the tangent direction:
    the direction is a unit vector orthogonal to the base point, sample i is
    exactly p0 cos s + v sin s (the re-normalization and the random draws
    play no part), and the middle sample, of index 110, is the base point
    itself. *)
Theorem makeGreatCircle_regular (rnd : Vec3 * R) (p0 : Vec3) (yw : R)
  (d : Vec3) :
  V3.lengthSq p0 = 1 ->
  let dirFlat := mkVec3 (sin yw) 0 (cos yw) in
  let t := V3.sub dirFlat (V3.multiplyScalar p0 (V3.dot dirFlat p0)) in
  1 / 1000000 <= V3.lengthSq t ->
  let v := V3.normalize t in
  V3.dot p0 v = 0 /\ V3.lengthSq v = 1
  /\ (forall i, (i <= N)%nat ->
        let s := (INR i / INR N - 5 / 10) * arc in
        nth i (makeGreatCircle rnd p0 yw) d
        = V3.add (V3.multiplyScalar p0 (cos s)) (V3.multiplyScalar v (sin s)))
  /\ nth 110 (makeGreatCircle rnd p0 yw) d = p0.
Proof.
  intros Hp dirFlat t Ht v.
  assert (Ho : V3.dot p0 v = 0) by (apply tangent_orthogonal, Hp).
  assert (Hv : V3.lengthSq v = 1) by (apply V3_lengthSq_normalize; lra).
  assert (G : forall i, (i <= N)%nat ->
            nth i (makeGreatCircle rnd p0 yw) d
            = V3.add (V3.multiplyScalar p0
                        (cos ((INR i / INR N - 5 / 10) * arc)))
                     (V3.multiplyScalar v
                        (sin ((INR i / INR N - 5 / 10) * arc)))).
  { intros i Hi. rewrite (makeGreatCircle_nth rnd p0 yw i d Hi). cbv zeta.
    fold dirFlat. fold t.
    destruct (Rlt_dec (V3.lengthSq t) (1 / 1000000)) as [C|_]; [lra|].
    fold v. apply V3_normalize_unit.
    rewrite (circle_point_lengthSq p0 v _ _ Hp Hv), Ho.
    pose proof (sin2_cos2 ((INR i / INR N - 5 / 10) * arc)) as Hsc.
    unfold Rsqr in Hsc. lra. }
  split; [exact Ho|]. split; [exact Hv|]. split; [exact G|].
  rewrite G by (unfold N; lia).
  assert (Hs : (INR 110 / INR N - 5 / 10) * arc = 0).
  { replace (INR 110) with 110 by (rewrite INR_IZR_INZ; reflexivity).
    replace (INR N) with 220 by (rewrite INR_IZR_INZ; reflexivity).
    field. }
  rewrite Hs, cos_0, sin_0. clearbody v.
  destruct p0 as [a b c], v as [e f g].
  unfold V3.add, V3.multiplyScalar; simpl. f_equal; ring.
Qed.

Lemma makeGreatCircle_regular_witness :
  V3.lengthSq (mkVec3 0 0 (-1)) = 1
  /\ 1 / 1000000
     <= V3.lengthSq
          (V3.sub (mkVec3 (sin (PI / 2)) 0 (cos (PI / 2)))
                  (V3.multiplyScalar (mkVec3 0 0 (-1))
                     (V3.dot (mkVec3 (sin (PI / 2)) 0 (cos (PI / 2)))
                             (mkVec3 0 0 (-1)))))
  /\ nth 110 (makeGreatCircle (mkVec3 1 0 0, 0) (mkVec3 0 0 (-1)) (PI / 2))
         V3.zero
     = mkVec3 0 0 (-1).
Proof.
  assert (H1 : V3.lengthSq (mkVec3 0 0 (-1)) = 1)
    by (unfold V3.lengthSq, V3.dot; simpl; ring).
  assert (H2 : 1 / 1000000
               <= V3.lengthSq
                    (V3.sub (mkVec3 (sin (PI / 2)) 0 (cos (PI / 2)))
                       (V3.multiplyScalar (mkVec3 0 0 (-1))
                          (V3.dot (mkVec3 (sin (PI / 2)) 0 (cos (PI / 2)))
                                  (mkVec3 0 0 (-1)))))).
  { rewrite sin_PI2, cos_PI2.
    unfold V3.lengthSq, V3.dot, V3.sub, V3.multiplyScalar; simpl. lra. }
  split; [exact H1|]. split; [exact H2|].
  exact (proj2 (proj2 (proj2 (makeGreatCircle_regular (mkVec3 1 0 0, 0)
                                (mkVec3 0 0 (-1)) (PI / 2) V3.zero H1 H2)))).
Defined.

Lemma stereoToSphere_injective_witness :
  stereoToSphere (mkVec2 (1 / 2) 0) = stereoToSphere (mkVec2 (2 / 4) 0)
  /\ mkVec2 (1 / 2) 0 = mkVec2 (2 / 4) 0.
Proof.
  assert (E : stereoToSphere (mkVec2 (1 / 2) 0)
              = stereoToSphere (mkVec2 (2 / 4) 0)).
  { unfold stereoToSphere; simpl. f_equal; field. }
  split; [exact E|].
  exact (stereoToSphere_injective _ _ E).
Defined.
